(** * whistle: lib/rules/storage.js

    A shallow embedding of the rule storage engine (in-memory cache of named
    files plus a property map, with write-behind persistence) and the
    properties of it that the specification states.

    Modelling conventions.
    - JavaScript objects used as dictionaries ([_cache.files],
      [_cache.properties]) are finite maps keyed by strings; names are
      assumed not to collide with members inherited from [Object.prototype].
    - File records are mutable objects shared by reference: they live in a
      heap (a list indexed by reference) and the file table maps a name to
      a reference.
    - Numbers are integers ([Z]); strings are [string].
    - A call either returns or throws; the state reached so far is kept in
      both cases.
    - Asynchronous I/O requests issued by a call are appended to the [io]
      log of the state; completion callbacks are separate functions. *)

From Stdlib Require Import Ascii String.
From stdpp Require Import gmap strings list fin_maps sorting pretty.

Open Scope string_scope.
Open Scope list_scope.

(** ** JavaScript values *)

(** Values stored in the property map.  Arrays and objects are taken by
    value: structural operations of the engine replace the stored array. *)
#[local] Unset Elimination Schemes.
Inductive jsval :=
  | JUndef
  | JNull
  | JBool (b : bool)
  | JNum (z : Z)
  | JStr (s : string)
  | JArr (l : list jsval)
  | JObj (m : gmap string jsval).
#[local] Set Elimination Schemes.

(** An argument that is expected to be a string but may be missing. *)
Inductive arg :=
  | Undefined
  | Null
  | Str (s : string).

(** Result of a call: normal return or an exception. *)
Inductive completion (A : Type) :=
  | Return (a : A)
  | Throw (e : string).
Arguments Return {A} a.
Arguments Throw {A} e.

(** What the public operations hand back to the caller. *)
Inductive retval :=
  | RUndefined
  | RBool (b : bool)
  | RNum (z : Z)
  | RStr (s : string)
  | RRef (l : nat)
  | RVal (v : jsval)
  | RList (l : list (option nat)).

(** ToBoolean. *)
Definition truthy_str (s : string) : bool :=
  match s with "" => false | _ => true end.

Definition truthy (a : arg) : bool :=
  match a with
  | Undefined | Null => false
  | Str s => truthy_str s
  end.

Definition truthy_js (v : jsval) : bool :=
  match v with
  | JUndef | JNull => false
  | JBool b => b
  | JNum z => negb (Z.eqb z 0)
  | JStr s => truthy_str s
  | JArr _ | JObj _ => true
  end.

Definition truthy_ret (r : retval) : bool :=
  match r with
  | RUndefined => false
  | RBool b => b
  | RNum z => negb (Z.eqb z 0)
  | RStr s => truthy_str s
  | RVal v => truthy_js v
  | RRef _ | RList _ => true
  end.

(** ToString of an argument used as a property key. *)
Definition key (a : arg) : string :=
  match a with
  | Undefined => "undefined"
  | Null => "null"
  | Str s => s
  end.

(** [data == null ? '' : data] *)
Definition norm_data (d : arg) : string :=
  match d with
  | Undefined | Null => ""
  | Str s => s
  end.

(** [Array.prototype.indexOf] with a string needle: strict equality only
    matches string elements. *)
Fixpoint indexOf (l : list jsval) (x : string) : option nat :=
  match l with
  | [] => None
  | v :: l' =>
      match v with
      | JStr s => if decide (s = x) then Some 0%nat else S <$> indexOf l' x
      | _ => S <$> indexOf l' x
      end
  end.

(** [a.splice(i, 1)] *)
Definition splice_out {A} (i : nat) (l : list A) : list A :=
  take i l ++ drop (S i) l.

(** [a.splice(i, 0, x)] *)
Definition splice_in {A} (i : nat) (x : A) (l : list A) : list A :=
  take i l ++ x :: drop i l.

(** [a.splice(-1, 1)]: a negative start counts from the end. *)
Definition splice_last {A} (l : list A) : list A :=
  take (length l - 1)%nat l.

(** ToString, as applied to a value used as a property key. *)
Fixpoint js_toString (v : jsval) : string :=
  match v with
  | JUndef => "undefined"
  | JNull => "null"
  | JBool true => "true"
  | JBool false => "false"
  | JNum z => pretty z
  | JStr s => s
  | JArr l =>
      String.concat ","
        (map (fun x => match x with
                       | JUndef | JNull => ""
                       | _ => js_toString x
                       end) l)
  | JObj _ => "[object Object]"
  end.

(** [String.prototype.indexOf] *)
Definition str_indexOf (hay needle : string) : option nat :=
  String.index 0 needle hay.

(** ** The in-memory cache *)

(** Write-behind flags of one persisted unit.  On a file record these are
    the fields [_pending], [_waiting] and [_timeout]; for the properties
    document they are [_writePropertiesPending], [_writePropertiesWaiting]
    and [_writePropertiesTimeout] of the Storage object. *)
Record flags := Flags {
  pending : bool;
  waiting : bool;
  timeout : option nat
}.

Definition no_flags : flags := Flags false false None.

Definition set_pending (b : bool) (f : flags) : flags :=
  Flags b (waiting f) (timeout f).
Definition set_waiting (b : bool) (f : flags) : flags :=
  Flags (pending f) b (timeout f).
Definition set_timeout (t : option nat) (f : flags) : flags :=
  Flags (pending f) (waiting f) t.

(** A file record.  [data] is absent between the creation of the record
    and the first assignment; [selected] is only ever set by callers. *)
Record FileObj := MkFile {
  index : Z;
  name : string;
  data : option string;
  selected : jsval;
  fflags : flags
}.

Definition set_name (n : string) (o : FileObj) : FileObj :=
  MkFile (index o) n (data o) (selected o) (fflags o).
Definition set_data (d : string) (o : FileObj) : FileObj :=
  MkFile (index o) (name o) (Some d) (selected o) (fflags o).
Definition set_fflags (f : flags) (o : FileObj) : FileObj :=
  MkFile (index o) (name o) (data o) (selected o) f.

(** Asynchronous requests handed to the host.  A file path is determined
    by the record's index and name ([_getFilePath]). *)
Inductive io_op :=
  | IoWriteFile (l : nat) (idx : Z) (nm : string) (d : option string)
  | IoOutputJson (props : gmap string jsval)
  | IoUnlink (idx : Z) (nm : string)
  | IoRename (idx : Z) (old new : string)
  | IoClearTimeout (h : option nat)
  | IoSetTimeout (id : nat) (unit_ref : option nat)
  | IoLogError.

Record Storage := MkStorage {
  heap : list FileObj;
  maxIndex : Z;
  files : gmap string nat;
  properties : gmap string jsval;
  pflags : flags;
  next_timer : nat;
  io : list io_op
}.

Definition set_heap (h : list FileObj) (s : Storage) : Storage :=
  MkStorage h (maxIndex s) (files s) (properties s) (pflags s)
            (next_timer s) (io s).
Definition set_maxIndex (m : Z) (s : Storage) : Storage :=
  MkStorage (heap s) m (files s) (properties s) (pflags s)
            (next_timer s) (io s).
Definition set_files (f : gmap string nat) (s : Storage) : Storage :=
  MkStorage (heap s) (maxIndex s) f (properties s) (pflags s)
            (next_timer s) (io s).
Definition set_properties (p : gmap string jsval) (s : Storage) : Storage :=
  MkStorage (heap s) (maxIndex s) (files s) p (pflags s)
            (next_timer s) (io s).
Definition set_pflags (f : flags) (s : Storage) : Storage :=
  MkStorage (heap s) (maxIndex s) (files s) (properties s) f
            (next_timer s) (io s).
Definition set_next_timer (n : nat) (s : Storage) : Storage :=
  MkStorage (heap s) (maxIndex s) (files s) (properties s) (pflags s)
            n (io s).
Definition emit (e : io_op) (s : Storage) : Storage :=
  MkStorage (heap s) (maxIndex s) (files s) (properties s) (pflags s)
            (next_timer s) (io s ++ [e]).

Definition emit_all (es : list io_op) (s : Storage) : Storage :=
  MkStorage (heap s) (maxIndex s) (files s) (properties s) (pflags s)
            (next_timer s) (io s ++ es).

(** Assignment to fields of the object behind reference [l]. *)
Definition set_obj (l : nat) (o : FileObj) (s : Storage) : Storage :=
  set_heap (<[l := o]> (heap s)) s.

(** Allocation of a new object. *)
Definition alloc (o : FileObj) (s : Storage) : nat * Storage :=
  (length (heap s), set_heap (heap s ++ [o]) s).

(** [cache.files[file]]: the record and its reference, when present. *)
Definition lookup_file (file : string) (s : Storage) : option (nat * FileObj) :=
  match files s !! file with
  | Some l =>
      match heap s !! l with
      | Some o => Some (l, o)
      | None => None
      end
  | None => None
  end.

Definition filesOrder_key : string := "filesOrder".

(** storage.js 111-119: the request half of [_writeProperties]. *)
Definition _writeProperties (s : Storage) : Storage :=
  if pending (pflags s) then
    set_pflags (set_waiting true (pflags s)) s
  else
    let s := emit (IoClearTimeout (timeout (pflags s))) s in
    let s := set_pflags (set_pending true (pflags s)) s in
    emit (IoOutputJson (properties s)) s.

(** storage.js 131-142: the request half of [_writeFile]. *)
Definition _writeFile (file : string) (s : Storage) : Storage :=
  match lookup_file file s with
  | None => s
  | Some (l, o) =>
      if pending (fflags o) then
        set_obj l (set_fflags (set_waiting true (fflags o)) o) s
      else
        let s := emit (IoClearTimeout (timeout (fflags o))) s in
        let o := set_fflags (set_pending true (fflags o)) o in
        let s := set_obj l o s in
        emit (IoWriteFile l (index o) (name o) (data o)) s
  end.

(** storage.js 119-128: completion callback of the properties write. *)
Definition _writeProperties_done (err : bool) (s : Storage) : Storage :=
  let s := set_pflags (set_pending false (pflags s)) s in
  if waiting (pflags s) then
    let s := set_pflags (set_waiting false (pflags s)) s in
    _writeProperties s
  else if err then
    let id := next_timer s in
    let s := set_next_timer (S id) s in
    let s := emit (IoSetTimeout id None) s in
    let s := set_pflags (set_timeout (Some id) (pflags s)) s in
    emit IoLogError s
  else s.

(** storage.js 142-153: completion callback of the write issued for the
    record behind [l]. *)
Definition _writeFile_done (l : nat) (err : bool) (s : Storage) : Storage :=
  match heap s !! l with
  | None => s
  | Some o =>
      let o := set_fflags (set_pending false (fflags o)) o in
      if waiting (fflags o) then
        let o := set_fflags (set_waiting false (fflags o)) o in
        _writeFile (name o) (set_obj l o s)
      else if err then
        let id := next_timer s in
        let s := set_next_timer (S id) s in
        let s := emit (IoSetTimeout id (Some l)) s in
        let o := set_fflags (set_timeout (Some id) (fflags o)) o in
        emit IoLogError (set_obj l o s)
      else set_obj l o s
  end.

(** The retry timers: [_writeProperties.bind(self)] and
    [function() { self._writeFile(file.name); }]. *)
Definition timer_fired (unit_ref : option nat) (s : Storage) : Storage :=
  match unit_ref with
  | None => _writeProperties s
  | Some l =>
      match heap s !! l with
      | Some o => _writeFile (name o) s
      | None => s
      end
  end.

(** ** Public operations (storage.js 167-292)

    Every operation maps a state to the state it leaves behind and the
    completion of the call. *)

Definition result : Type := Storage * completion retval.

Definition type_error : completion retval := Throw "TypeError".

(** storage.js 31-42 *)
Definition copyFileObj (file : option nat) (s : Storage) : option nat * Storage :=
  match file with
  | None => (None, s)
  | Some l =>
      match heap s !! l with
      | None => (None, s)
      | Some o =>
          let '(l', s) :=
            alloc (MkFile (index o) (name o) (data o) (selected o) no_flags) s in
          (Some l', s)
      end
  end.

(** storage.js 167-169 *)
Definition count (s : Storage) : result :=
  (s, Return (RNum (Z.of_nat (size (files s))))).

(** storage.js 171-173 *)
Definition existsFile (file : arg) (s : Storage) : result :=
  match files s !! key file with
  | Some l => (s, Return (RRef l))
  | None => (s, Return RUndefined)
  end.

(** The callback of [filesOrder.map] in [getFileList], applied from left
    to right. *)
Fixpoint getFileList_map (origObj : bool) (order : list jsval) (s : Storage)
  : list (option nat) * Storage :=
  match order with
  | [] => ([], s)
  | file :: order' =>
      let '(e, s) :=
        if origObj then (files s !! js_toString file, s)
        else copyFileObj (files s !! js_toString file) s in
      let '(es, s) := getFileList_map origObj order' s in
      (e :: es, s)
  end.

(** storage.js 175-182 *)
Definition getFileList (origObj : bool) (s : Storage) : result :=
  match properties s !! filesOrder_key with
  | Some (JArr order) =>
      let '(es, s) := getFileList_map origObj order s in
      (s, Return (RList es))
  | _ => (s, type_error)
  end.

(** storage.js 184-203 *)
Definition writeFile (file data : arg) (s : Storage) : result :=
  if negb (truthy file) then (s, Return RUndefined)
  else
    let k := key file in
    match lookup_file k s with
    | Some (l, o) =>
        let s := set_obj l (set_data (norm_data data) o) s in
        let s := _writeFile k s in
        (s, Return (RRef l))
    | None =>
        let s := set_maxIndex (maxIndex s + 1)%Z s in
        let fileData := MkFile (maxIndex s) k None JUndef no_flags in
        let '(l, s) := alloc fileData s in
        let s := set_files (<[k := l]> (files s)) s in
        match properties s !! filesOrder_key with
        | Some (JArr order) =>
            let s := set_properties
                       (<[filesOrder_key := JArr (order ++ [JStr k])]>
                          (properties s)) s in
            let s := _writeProperties s in
            let s := set_obj l (set_data (norm_data data) fileData) s in
            let s := _writeFile k s in
            (s, Return (RRef l))
        | _ => (s, type_error)
        end
    end.

(** storage.js 205-207 *)
Definition updateFile (file data : arg) (s : Storage) : result :=
  match existsFile file s with
  | (s, Return r) => if truthy_ret r then writeFile file data s else (s, Return r)
  | r => r
  end.

(** storage.js 209-212 *)
Definition readFile (file : arg) (s : Storage) : result :=
  match file with
  | Undefined => (s, Return RUndefined)
  | Null => (s, Return (RVal JNull))
  | Str f =>
      if negb (truthy_str f) then (s, Return (RStr f))
      else
        match lookup_file f s with
        | Some (_, o) =>
            match data o with
            | Some d => (s, Return (RStr d))
            | None => (s, Return RUndefined)
            end
        | None => (s, Return RUndefined)
        end
  end.

(** storage.js 214-226 *)
Definition removeFile (file : string) (s : Storage) : result :=
  if negb (truthy_str file) then (s, Return RUndefined)
  else
    match lookup_file file s with
    | None => (s, Return RUndefined)
    | Some (l, o) =>
        match properties s !! filesOrder_key with
        | Some (JArr order) =>
            let order' :=
              match indexOf order (name o) with
              | Some i => splice_out i order
              | None => splice_last order
              end in
            let s := set_properties
                       (<[filesOrder_key := JArr order']> (properties s)) s in
            let s := set_files (delete (name o) (files s)) s in
            let s := emit (IoUnlink (index o) (name o)) s in
            let s := _writeProperties s in
            (s, Return (RBool true))
        | _ => (s, type_error)
        end
    end.

(** storage.js 228-243 *)
Definition renameFile (file newFile : string) (s : Storage) : result :=
  if negb (truthy_str newFile) then (s, Return RUndefined)
  else
    match lookup_file file s with
    | None => (s, Return RUndefined)
    | Some (l, o) =>
        match files s !! newFile with
        | Some _ => (s, Return RUndefined)
        | None =>
            let finish (s : Storage) : result :=
              let s := set_files (delete (name o) (files s)) s in
              let s := set_obj l (set_name newFile o) s in
              let s := set_files (<[newFile := l]> (files s)) s in
              let s := emit (IoRename (index o) (name o) newFile) s in
              let s := _writeProperties s in
              (s, Return (RBool true)) in
            match properties s !! filesOrder_key with
            | Some (JArr order) =>
                let order' :=
                  match indexOf order (name o) with
                  | Some i => <[i := JStr newFile]> order
                  | None => order (* sets the non-element property "-1" *)
                  end in
                finish (set_properties
                          (<[filesOrder_key := JArr order']> (properties s)) s)
            | Some (JStr _) => finish s (* assignment to a primitive is ignored *)
            | _ => (s, type_error)
            end
        end
    end.

(** storage.js 245-259 *)
Definition moveTo (fromName toName : string) (s : Storage) : result :=
  match properties s !! filesOrder_key with
  | Some (JArr order) =>
      match indexOf order fromName with
      | None => (s, Return (RBool false))
      | Some fromIndex =>
          match indexOf order toName with
          | None => (s, Return (RBool false))
          | Some toIndex =>
              let order' :=
                splice_in toIndex (JStr fromName) (splice_out fromIndex order) in
              let s := set_properties
                         (<[filesOrder_key := JArr order']> (properties s)) s in
              let s := _writeProperties s in
              (s, Return (RBool true))
          end
      end
  | Some (JStr str) =>
      match str_indexOf str fromName with
      | None => (s, Return (RBool false))
      | Some _ =>
          match str_indexOf str toName with
          | None => (s, Return (RBool false))
          | Some _ => (s, type_error)
          end
      end
  | _ => (s, type_error)
  end.

(** storage.js 261-264 *)
Definition setProperty (nm : string) (value : jsval) (s : Storage) : result :=
  let s := set_properties (<[nm := value]> (properties s)) s in
  let s := _writeProperties s in
  (s, Return RUndefined).

(** storage.js 266-268 *)
Definition hasProperty (nm : string) (s : Storage) : bool :=
  bool_decide (is_Some (properties s !! nm)).

(** storage.js 270-281; [None] stands for a falsy argument. *)
Definition setProperties (obj : option (gmap string jsval)) (s : Storage)
  : result :=
  match obj with
  | None => (s, Return RUndefined)
  | Some m =>
      let s := set_properties (m ∪ properties s) s in
      let s := _writeProperties s in
      (s, Return (RBool true))
  end.

(** storage.js 283-285 *)
Definition getProperty (nm : string) (s : Storage) : result :=
  (s, Return (RVal (default JUndef (properties s !! nm)))).

(** storage.js 287-292 *)
Definition removeProperty (nm : string) (s : Storage) : result :=
  if hasProperty nm s && negb (bool_decide (nm = filesOrder_key)) then
    let s := set_properties (delete nm (properties s)) s in
    let s := _writeProperties s in
    (s, Return RUndefined)
  else (s, Return RUndefined).

(** The calls a client can make. *)
Inductive call :=
  | Count
  | ExistsFile (file : arg)
  | GetFileList (origObj : bool)
  | WriteFile (file data : arg)
  | UpdateFile (file data : arg)
  | ReadFile (file : arg)
  | RemoveFile (file : string)
  | RenameFile (file newFile : string)
  | MoveTo (fromName toName : string)
  | SetProperty (nm : string) (value : jsval)
  | HasProperty (nm : string)
  | SetProperties (obj : option (gmap string jsval))
  | GetProperty (nm : string)
  | RemoveProperty (nm : string).

Definition exec (c : call) (s : Storage) : result :=
  match c with
  | Count => count s
  | ExistsFile f => existsFile f s
  | GetFileList b => getFileList b s
  | WriteFile f d => writeFile f d s
  | UpdateFile f d => updateFile f d s
  | ReadFile f => readFile f s
  | RemoveFile f => removeFile f s
  | RenameFile f n => renameFile f n s
  | MoveTo f t => moveTo f t s
  | SetProperty n v => setProperty n v s
  | HasProperty n => (s, Return (RBool (hasProperty n s)))
  | SetProperties o => setProperties o s
  | GetProperty n => getProperty n s
  | RemoveProperty n => removeProperty n s
  end.

(** The callbacks the host can run between two calls. *)
Inductive host_event :=
  | FileWritten (l : nat) (err : bool)
  | PropertiesWritten (err : bool)
  | TimerFired (unit_ref : option nat).

Definition host (e : host_event) (s : Storage) : Storage :=
  match e with
  | FileWritten l err => _writeFile_done l err s
  | PropertiesWritten err => _writeProperties_done err s
  | TimerFired u => timer_fired u s
  end.

(** ** Invariants of the cache *)

(** The names held by [filesOrder], when it is an array of strings. *)
Definition str_of (v : jsval) : option string :=
  match v with JStr s => Some s | _ => None end.

Definition order_names (s : Storage) : option (list string) :=
  match properties s !! filesOrder_key with
  | Some (JArr order) => mapM str_of order
  | _ => None
  end.

(** The keys of the file table. *)
Definition table_keys (s : Storage) : list string :=
  elements (dom (files s)).

(** [filesOrder] is a permutation of the keys of the file table. *)
Definition order_perm (s : Storage) : Prop :=
  match order_names s with
  | Some ns => ns ≡ₚ table_keys s
  | None => False
  end.

(** Every entry of the file table refers to a record stored under its own
    name. *)
Definition files_wf (s : Storage) : Prop :=
  map_Forall (fun k l => name <$> heap s !! l = Some k) (files s).

(** No record of the table carries an index above the counter. *)
Definition index_bound (s : Storage) : Prop :=
  map_Forall (fun _ l => match heap s !! l with
                         | Some o => (index o <= maxIndex s)%Z
                         | None => True
                         end) (files s).

#[global] Instance order_perm_dec s : Decision (order_perm s).
Proof. unfold order_perm. destruct (order_names s); apply _. Defined.

#[global] Instance files_wf_dec s : Decision (files_wf s).
Proof. unfold files_wf. apply _. Defined.

#[global] Instance index_bound_dec s : Decision (index_bound s).
Proof.
  unfold index_bound. apply map_Forall_dec. intros k l.
  destruct (heap s !! l); apply _.
Defined.


(** ** Sequences of calls *)

(** The index handed out by a call: that of the record found under the
    name after a [writeFile] or [updateFile], when the table had none under
    that name before. *)
Definition issued (c : call) (s : Storage) : option Z :=
  match c with
  | WriteFile file _ | UpdateFile file _ =>
      match files s !! key file with
      | None =>
          (fun r => index (snd r)) <$> lookup_file (key file) (fst (exec c s))
      | Some _ => None
      end
  | _ => None
  end.

(** Runs the calls in order (a caller goes on after a failed call) and
    collects the indices handed out. *)
Fixpoint run (cs : list call) (s : Storage) : Storage * list Z :=
  match cs with
  | [] => (s, [])
  | c :: cs' =>
      let '(s', ixs) := run cs' (fst (exec c s)) in
      (s', option_list (issued c s) ++ ixs)
  end.

(** ** Bootstrap (storage.js 8-29, 46-107) *)

(** storage.js 8-17.  The argument is the outcome of [fs.readFileSync];
    the second component is what was logged. *)
Definition readFileSafe (read : completion string)
  : completion string * list io_op :=
  let '(file, log) :=
    match read with
    | Return f => (Some f, [])
    | Throw _ => (None, [IoLogError])
    end in
  (Return match file with
          | Some f => if truthy_str f then f else ""
          | None => ""
          end, log).

(** storage.js 19-29, for a given [JSON.parse]. *)
Definition readJsonSafe (JSON_parse : string -> completion jsval)
    (read : completion string) : completion jsval * list io_op :=
  let '(file, log) :=
    match read with
    | Return f =>
        if truthy_str f then
          match JSON_parse f with
          | Return v => (v, [])
          | Throw _ => (JNull, [IoLogError])
          end
        else (JStr f, [])
    | Throw _ => (JNull, [IoLogError])
    end in
  (Return (if truthy_js file then file else JObj ∅), log).

(** [/^(\d+)\.(.+)$/]: a non-empty run of digits, a dot, and a non-empty
    rest without line terminators. *)
Definition is_digit (a : ascii) : bool :=
  (48 <=? nat_of_ascii a)%nat && (nat_of_ascii a <=? 57)%nat.

Fixpoint span_digits (s : string) : string * string :=
  match s with
  | String a s' =>
      if is_digit a then
        let '(d, r) := span_digits s' in (String a d, r)
      else ("", s)
  | EmptyString => ("", "")
  end.

Fixpoint no_line_terminator (s : string) : bool :=
  match s with
  | String a s' =>
      negb (bool_decide (nat_of_ascii a = 10%nat))
      && negb (bool_decide (nat_of_ascii a = 13%nat))
      && no_line_terminator s'
  | EmptyString => true
  end.

Definition match_entry (file : string) : option (string * string) :=
  match span_digits file with
  | (String a d, String "."%char rest) =>
      if truthy_str rest && no_line_terminator rest
      then Some (String a d, rest) else None
  | _ => None
  end.

(** [parseInt(digits, 10)] *)
Definition parse_dec (digits : string) : Z :=
  fold_left (fun acc a => (10 * acc + (Z.of_nat (nat_of_ascii a) - 48))%Z)
            (list_ascii_of_string digits) 0%Z.

(** [Array.prototype.sort(comparefn)] belongs to the host and ECMAScript
    leaves its algorithm open.  It is modelled by insertion sort from the
    left, the procedure V8 runs on short arrays: the element taken next is
    moved left past every [tmp] with [comparefn(tmp, element) > 0].  The
    sorted part is kept reversed, nearest element first. *)
Fixpoint sort_insert {A} (comparefn : A -> A -> Z) (element : A)
    (sorted_rev : list A) : list A :=
  match sorted_rev with
  | [] => [element]
  | tmp :: rest =>
      if (0 <? comparefn tmp element)%Z
      then tmp :: sort_insert comparefn element rest
      else element :: tmp :: rest
  end.

Definition array_sort {A} (comparefn : A -> A -> Z) (a : list A) : list A :=
  reverse (fold_left (fun acc x => sort_insert comparefn x acc) a []).

(** [files[cur].index] for a key of the table. *)
Definition index_of (s : Storage) (k : string) : Z :=
  match lookup_file k s with
  | Some (_, o) => index o
  | None => 0
  end.

(** storage.js 92-105: the comparator given to [sort]; [persisted] is the
    stored [filesOrder] when it is an array. *)
Definition order_cmp (persisted : option (list jsval)) (idx : string -> Z)
    (cur next : string) : Z :=
  let by_index := if (idx next <? idx cur)%Z then 1%Z else (-1)%Z in
  match persisted with
  | Some filesOrder =>
      match indexOf filesOrder cur with
      | Some curIndex =>
          match indexOf filesOrder next with
          | Some nextIndex =>
              if (nextIndex <? curIndex)%nat then 1%Z else (-1)%Z
          | None => by_index
          end
      | None => by_index
      end
  | None => by_index
  end.

(** storage.js 88-91 *)
Definition persisted_order (properties : gmap string jsval)
  : option (list jsval) :=
  match properties !! filesOrder_key with
  | Some (JArr l) => Some l
  | _ => None
  end.

(** storage.js 88-105: the order computed from the recovered table. *)
Definition bootstrap_order (s : Storage) : list string :=
  array_sort (order_cmp (persisted_order (properties s)) (index_of s))
             (table_keys s).

(** storage.js 88-106: the computed order is stored under [filesOrder]. *)
Definition restore_order (s : Storage) : Storage :=
  let filesOrder := bootstrap_order s in
  fst (setProperty filesOrder_key (JArr (JStr <$> filesOrder)) s).

(** The position of a name in the persisted array. *)
Definition position (persisted : list jsval) (k : string) : Z :=
  match indexOf persisted k with
  | Some i => Z.of_nat i
  | None => (-1)%Z
  end.

Section Bootstrap.
(** Host functions that are not part of the repository. *)
Variable decodeURIComponent : string -> completion string.
Variable JSON_parse : string -> completion jsval.

(** storage.js 61-79: the body of the directory scan, applied to an
    entry name and the outcome of reading that entry. *)
Definition scan_entry (s : Storage) (entry : string * completion string)
  : Storage :=
  match match_entry (fst entry) with
  | None => s
  | Some (digits, encoded) =>
      let idx := parse_dec digits in
      match decodeURIComponent encoded with
      | Throw _ => emit IoLogError s
      | Return filename =>
          let s := if (maxIndex s <? idx)%Z then set_maxIndex idx s else s in
          let '(content, log) := readFileSafe (snd entry) in
          let d := match content with Return d => Some d | Throw _ => None end in
          let s := emit_all log s in
          let '(l, s) := alloc (MkFile idx filename d JUndef no_flags) s in
          set_files (<[filename := l]> (files s)) s
      end
  end.

(** storage.js 46-107.  The result is [None] when the parsed properties
    document is not an object, a case the model does not cover. *)
Definition Storage_new (dir : list (string * completion string))
    (properties_read : completion string) : option Storage :=
  let s := fold_left scan_entry dir
             (MkStorage [] (-1) ∅ ∅ no_flags 0 []) in
  let '(properties, log) := readJsonSafe JSON_parse properties_read in
  match properties with
  | Return (JObj properties) =>
      Some (restore_order (set_properties properties (emit_all log s)))
  | _ => None
  end.
End Bootstrap.

(** ** One persisted unit and its host (storage.js 111-154)

    The properties document and every file record are persisted by the
    same procedure.  A unit is followed here together with the part of the
    host it talks to: the writes handed to the file system and not yet
    completed, the live retry timers, and the content on disk.  The unit
    keeps its place on disk: renaming or removing a file while one of its
    writes is in flight is a race storage.js 240 leaves open, and is not
    followed here. *)

Section Unit.
Context {V : Type}.

Record unit_state := MkUnit {
  mem : V;                 (* the in-memory value of the unit *)
  uflags : flags;
  inflight : list V;       (* payloads of the writes in flight *)
  timers : list nat;       (* live timers *)
  unext : nat;
  disk : option V          (* content on disk, if any is readable *)
}.

Definition unit_idle (v : V) (d : option V) : unit_state :=
  MkUnit v no_flags [] [] 0 d.

(** [clearTimeout(h)] *)
Definition clear_timeout (h : option nat) (ts : list nat) : list nat :=
  match h with
  | Some id => filter (fun t => t ≠ id) ts
  | None => ts
  end.

(** storage.js 113-119 and 136-142 *)
Definition unit_write (u : unit_state) : unit_state :=
  if pending (uflags u) then
    MkUnit (mem u) (set_waiting true (uflags u)) (inflight u) (timers u)
           (unext u) (disk u)
  else
    MkUnit (mem u) (set_pending true (uflags u)) (inflight u ++ [mem u])
           (clear_timeout (timeout (uflags u)) (timers u))
           (unext u) (disk u).

(** storage.js 120-127 and 143-152 *)
Definition unit_done (err : bool) (u : unit_state) : unit_state :=
  let f := set_pending false (uflags u) in
  if waiting f then
    unit_write (MkUnit (mem u) (set_waiting false f) (inflight u) (timers u)
                       (unext u) (disk u))
  else if err then
    MkUnit (mem u) (set_timeout (Some (unext u)) f) (inflight u)
           (timers u ++ [unext u]) (S (unext u)) (disk u)
  else
    MkUnit (mem u) f (inflight u) (timers u) (unext u) (disk u).

Inductive unit_event :=
  (* a mutator stores [v] and asks for persistence *)
  | Request (v : V)
  (* the host serialises the live value for the [i]-th write in flight
     again: [fse.outputJson] is handed the properties object itself *)
  | Reread (i : nat)
  (* the [i]-th write in flight completes; on failure the disk is left
     with [rest] *)
  | Written (i : nat)
  | Failed (i : nat) (rest : option V)
  (* a live timer fires *)
  | Fired (id : nat).

Definition unit_step (e : unit_event) (u : unit_state) : option unit_state :=
  match e with
  | Request v =>
      Some (unit_write (MkUnit v (uflags u) (inflight u) (timers u)
                               (unext u) (disk u)))
  | Reread i =>
      match inflight u !! i with
      | Some _ =>
          Some (MkUnit (mem u) (uflags u) (<[i := mem u]> (inflight u))
                       (timers u) (unext u) (disk u))
      | None => None
      end
  | Written i =>
      match inflight u !! i with
      | Some payload =>
          Some (unit_done false
                  (MkUnit (mem u) (uflags u) (delete i (inflight u))
                          (timers u) (unext u) (Some payload)))
      | None => None
      end
  | Failed i rest =>
      match inflight u !! i with
      | Some _ =>
          Some (unit_done true
                  (MkUnit (mem u) (uflags u) (delete i (inflight u))
                          (timers u) (unext u) rest))
      | None => None
      end
  | Fired id =>
      if bool_decide (id ∈ timers u) then
        Some (unit_write
                (MkUnit (mem u) (uflags u) (inflight u)
                        (filter (fun t => t ≠ id) (timers u))
                        (unext u) (disk u)))
      else None
  end.

Fixpoint unit_run (es : list unit_event) (u : unit_state)
  : option unit_state :=
  match es with
  | [] => Some u
  | e :: es' =>
      match unit_step e u with
      | Some u' => unit_run es' u'
      | None => None
      end
  end.

(** Nothing in flight and no retry scheduled. *)
Definition quiescent (u : unit_state) : bool :=
  match inflight u, timers u with
  | [], [] => true
  | _, _ => false
  end.


End Unit.
Arguments unit_state : clear implicits.
Arguments unit_event : clear implicits.

(** ** States used in examples *)

(** Files [a] (index 0) and [b] (index 1). *)
Definition fileA : FileObj := MkFile 0 "a" (Some "hello") JUndef no_flags.
Definition fileB : FileObj := MkFile 1 "b" (Some "world") JUndef no_flags.
Definition fileC : FileObj := MkFile 2 "c" (Some "") JUndef no_flags.

Definition st_ab : Storage :=
  MkStorage [fileA; fileB] 1 {[ "a" := 0%nat; "b" := 1%nat ]}
            {[ filesOrder_key := JArr [JStr "a"; JStr "b"] ]}
            no_flags 0 [].

Definition st_abc : Storage :=
  MkStorage [fileA; fileB; fileC] 2
            {[ "a" := 0%nat; "b" := 1%nat; "c" := 2%nat ]}
            {[ filesOrder_key := JArr [JStr "a"; JStr "b"; JStr "c"];
               "theme" := JStr "dark" ]}
            no_flags 0 [].

(** A store opened on an empty directory. *)
Definition st_empty : Storage :=
  MkStorage [] (-1) ∅ {[ filesOrder_key := JArr [] ]}
            (Flags true false None) 0
            [IoClearTimeout None; IoOutputJson {[ filesOrder_key := JArr [] ]}].

(** [x] stands right before [y] in [l]. *)
Definition immediately_before {A} (x y : A) (l : list A) : Prop :=
  exists i, l !! i = Some x /\ l !! S i = Some y.

(** ** Notions used in the statements and proofs *)

(** The record a first write leaves in the heap: the write of its content
    has been issued. *)
Definition new_record (idx : Z) (k : string) (d : arg) : FileObj :=
  MkFile idx k (Some (norm_data d)) JUndef (Flags true false None).

(** Records that exist keep their name and index. *)
Definition heap_le (s s' : Storage) : Prop :=
  forall l o, heap s !! l = Some o ->
    exists o', heap s' !! l = Some o' /\ name o' = name o /\ index o' = index o.

Inductive core_effect (s s' : Storage) : Prop :=
  | core_same :
      files s' = files s -> maxIndex s' = maxIndex s -> heap_le s s' ->
      core_effect s s'
  | core_insert k o :
      files s' = <[k := length (heap s)]> (files s) ->
      heap s' = heap s ++ [o] -> name o = k ->
      index o = (maxIndex s + 1)%Z -> maxIndex s' = (maxIndex s + 1)%Z ->
      core_effect s s'
  | core_delete k :
      files s' = delete k (files s) -> heap s' = heap s ->
      maxIndex s' = maxIndex s ->
      core_effect s s'
  | core_rename a b l o :
      files s !! a = Some l -> heap s !! l = Some o -> files s !! b = None ->
      files s' = <[b := l]> (delete (name o) (files s)) ->
      heap s' = <[l := set_name b o]> (heap s) ->
      maxIndex s' = maxIndex s ->
      core_effect s s'.



(** The object [copyFileObj] builds from a record: the four public fields,
    without the write-behind flags. *)
Definition copy_of (o : FileObj) : FileObj :=
  MkFile (index o) (name o) (data o) (selected o) no_flags.

(** The record stored under a name. *)
Definition record_of (s : Storage) (n : string) : option FileObj :=
  snd <$> lookup_file n s.

(** States recovered from a directory holding [0.a], [1.c] and [2.b]:
    without a persisted order, and with the persisted order [b, a]. *)
Definition st_recovered (properties : gmap string jsval) : Storage :=
  MkStorage [MkFile 0 "a" (Some "") JUndef no_flags;
             MkFile 1 "c" (Some "") JUndef no_flags;
             MkFile 2 "b" (Some "") JUndef no_flags] 2
            {[ "a" := 0%nat; "c" := 1%nat; "b" := 2%nat ]}
            properties no_flags 0 [].

Definition persisted_ba : gmap string jsval :=
  {[ filesOrder_key := JArr [JStr "b"; JStr "a"] ]}.




(** Sorted from the largest key to the smallest. *)
Definition descending {A} (f : A -> Z) : list A -> Prop :=
  StronglySorted (fun a b => (f b <= f a)%Z).

(** ** Reading back *)

(** What [readFile] returns for a record, if there is one. *)
Definition read_result (o : option FileObj) : retval :=
  match o with
  | Some o =>
      match data o with
      | Some d => RStr d
      | None => RUndefined
      end
  | None => RUndefined
  end.

(** The fields of a record other than the write-behind flags. *)
Definition content (o : FileObj) : Z * string * option string * jsval :=
  (index o, name o, data o, selected o).


(** ** Paths (storage.js 156-165) *)

Fixpoint all_digits (s : string) : bool :=
  match s with
  | String a s' => is_digit a && all_digits s'
  | EmptyString => true
  end.

(** storage.js 158-163: the encoded name, or the raw name when
    [encodeURIComponent] throws, and what was logged. *)
Definition encoded_name (encodeURIComponent : string -> completion string)
    (nm : string) : string * list io_op :=
  match encodeURIComponent nm with
  | Return e => (e, [])
  | Throw _ => (nm, [IoLogError])
  end.

(** [file.index + '.' + name] *)
Definition entry_name (encodeURIComponent : string -> completion string)
    (o : FileObj) : string :=
  pretty (index o) +:+ "." +:+ (encoded_name encodeURIComponent (name o)).1.


(** The record the directory scan builds for an owned entry. *)
Definition recovered (idx : Z) (nm : string) (read : completion string)
  : FileObj :=
  MkFile idx nm
         match (readFileSafe read).1 with
         | Return d => Some d
         | Throw _ => None
         end JUndef no_flags.

(** The files directory that holds the given records. *)
Definition persisted_dir (encodeURIComponent : string -> completion string)
    (rs : list FileObj) : list (string * completion string) :=
  (fun o => (entry_name encodeURIComponent o, Return (default "" (data o))))
    <$> rs.

(** A record whose name survives encoding, the entry pattern and
    decoding. *)
Definition name_roundtrips (encodeURIComponent decodeURIComponent
    : string -> completion string) (o : FileObj) : Prop :=
  (0 <= index o)%Z
  /\ exists e, encodeURIComponent (name o) = Return e
               /\ e <> "" /\ no_line_terminator e = true
               /\ decodeURIComponent e = Return (name o).

(** The value [parseInt] accumulates over a run of digits. *)
Definition dec_from (acc : Z) (digits : string) : Z :=
  fold_left (fun acc a => (10 * acc + (Z.of_nat (nat_of_ascii a) - 48))%Z)
            (list_ascii_of_string digits) acc.

(** What the disk keeps of a record: index, name and content. *)
Definition persisted_record (o : FileObj) : FileObj :=
  MkFile (index o) (name o) (Some (default "" (data o))) JUndef no_flags.

(** The largest index among records, or the given start. *)
Definition max_index (rs : list FileObj) (m : Z) : Z :=
  fold_left (fun m o => Z.max m (index o)) rs m.

(** The state the constructor starts the scan from. *)
Definition st_blank : Storage := MkStorage [] (-1) ∅ ∅ no_flags 0 [].

Definition persisted_bca_valid : gmap string jsval :=
  {[ filesOrder_key := JArr [JStr "b"; JStr "c"; JStr "a"] ]}.

(** ** Observations *)

(** The documents handed to [fse.outputJson], oldest first. *)
Definition json_writes (ops : list io_op) : list (gmap string jsval) :=
  omap (fun e => match e with IoOutputJson p => Some p | _ => None end) ops.

(** What a state holds apart from the write-behind machinery: the table,
    the properties, the counter, and of every record its four public
    fields. *)
Definition strip (s : Storage) : Storage :=
  MkStorage (copy_of <$> heap s) (maxIndex s) (files s) (properties s)
            no_flags 0 [].

(** A client call or a callback run by the host. *)
Inductive event :=
  | Call (c : call)
  | Host (e : host_event).

Definition is_call (ev : event) : option call :=
  match ev with Call c => Some c | Host _ => None end.

(** Runs calls and callbacks in the order given and collects the
    completions of the calls. *)
Fixpoint run_events (evs : list event) (s : Storage)
  : Storage * list (completion retval) :=
  match evs with
  | [] => (s, [])
  | Call c :: evs' =>
      let '(s1, r) := exec c s in
      let '(s2, rs) := run_events evs' s1 in
      (s2, r :: rs)
  | Host e :: evs' => run_events evs' (host e s)
  end.

(** The completion callback of the properties write. *)
Definition is_properties_written (ev : event) : bool :=
  match ev with Host (PropertiesWritten _) => true | _ => false end.


(** [held s s']: from [s], where a write of the properties document is in
    flight, the state [s'] was reached without handing another document
    to the host; the write is still in flight, a request that waits
    keeps waiting, and the properties only differ from those of [s] when
    a request waits. *)
Definition held (s s' : Storage) : Prop :=
  pending (pflags s') = true
  /\ json_writes (io s') = json_writes (io s)
  /\ (waiting (pflags s) = true -> waiting (pflags s') = true)
  /\ (waiting (pflags s') = true \/ properties s' = properties s).


(** The calls that change the file table or the order. *)
Definition is_file_mutation (c : call) : bool :=
  match c with
  | WriteFile _ _ | UpdateFile _ _ | RemoveFile _ | RenameFile _ _
  | MoveTo _ _ => true
  | _ => false
  end.


(** * Properties *)

(** ** Frame lemmas for the persistence requests *)

Lemma writeProperties_files s : files (_writeProperties s) = files s.
Proof. unfold _writeProperties. by destruct (pending (pflags s)). Qed.

Lemma writeProperties_heap s : heap (_writeProperties s) = heap s.
Proof. unfold _writeProperties. by destruct (pending (pflags s)). Qed.

Lemma writeProperties_maxIndex s : maxIndex (_writeProperties s) = maxIndex s.
Proof. unfold _writeProperties. by destruct (pending (pflags s)). Qed.

Lemma writeProperties_properties s :
  properties (_writeProperties s) = properties s.
Proof. unfold _writeProperties. by destruct (pending (pflags s)). Qed.

Lemma writeFile_req_files k s : files (_writeFile k s) = files s.
Proof.
  unfold _writeFile. destruct (lookup_file k s) as [[l o]|]; [|done].
  by destruct (pending (fflags o)).
Qed.

Lemma writeFile_req_maxIndex k s : maxIndex (_writeFile k s) = maxIndex s.
Proof.
  unfold _writeFile. destruct (lookup_file k s) as [[l o]|]; [|done].
  by destruct (pending (fflags o)).
Qed.

Lemma writeFile_req_properties k s :
  properties (_writeFile k s) = properties s.
Proof.
  unfold _writeFile. destruct (lookup_file k s) as [[l o]|]; [|done].
  by destruct (pending (fflags o)).
Qed.

Lemma lookup_file_Some k s l o :
  lookup_file k s = Some (l, o) <-> files s !! k = Some l /\ heap s !! l = Some o.
Proof.
  unfold lookup_file. split.
  - destruct (files s !! k) as [l'|]; [|done].
    destruct (heap s !! l') as [o'|] eqn:E; [|done].
    intros [= <- <-]. by rewrite E.
  - intros [H1 H2]. rewrite H1. simpl. by rewrite H2.
Qed.

Lemma lookup_file_None_files k s : files s !! k = None -> lookup_file k s = None.
Proof. unfold lookup_file. by intros ->. Qed.

(** Overwriting an object with one that agrees on a field keeps every
    reading of that field. *)
Lemma lookup_overwrite {B} (f : FileObj -> B) (h : list FileObj) l o o' l' :
  h !! l = Some o -> f o' = f o ->
  f <$> (<[l := o']> h) !! l' = f <$> h !! l'.
Proof.
  intros Hl Hf. destruct (decide (l = l')) as [<-|Hne].
  - rewrite list_lookup_insert_eq; [|by eapply lookup_lt_Some].
    rewrite Hl. simpl. by rewrite Hf.
  - by rewrite list_lookup_insert_ne.
Qed.

(** A persistence request only touches the flags of a record. *)
Lemma writeFile_req_heap {B} (f : FileObj -> B) k s l' :
  (forall fl o, f (set_fflags fl o) = f o) ->
  f <$> heap (_writeFile k s) !! l' = f <$> heap s !! l'.
Proof.
  intros Hf. unfold _writeFile.
  destruct (lookup_file k s) as [[l o]|] eqn:E; [|done].
  apply lookup_file_Some in E as [_ E].
  destruct (pending (fflags o)); simpl; by eapply lookup_overwrite.
Qed.


(** ** C10: a falsy name *)

(** C10. [writeFile] called with a falsy name (undefined, null or the
    empty string) returns undefined and leaves the whole state as it was:
    file table, counter, [filesOrder] and the other properties, the
    write-behind flags and the log of issued I/O requests. *)
Theorem writeFile_falsy_name (data : arg) (s : Storage) :
  writeFile Undefined data s = (s, Return RUndefined)
  /\ writeFile Null data s = (s, Return RUndefined)
  /\ writeFile (Str "") data s = (s, Return RUndefined).
Proof. by repeat split. Qed.

(** ** Arrays of names *)

Lemma mapM_str_of_names (ns : list string) : mapM str_of (JStr <$> ns) = Some ns.
Proof.
  apply mapM_Some. induction ns as [|n ns IH]; simpl; by constructor.
Qed.

Lemma mapM_str_of_inv (order : list jsval) (ns : list string) :
  mapM str_of order = Some ns -> order = JStr <$> ns.
Proof.
  intros H%mapM_Some. induction H as [|v n order ns Hv _ IH]; [done|].
  simpl. rewrite IH. by destruct v; simplify_eq/=.
Qed.

Lemma order_names_Some s ns :
  order_names s = Some ns <->
  properties s !! filesOrder_key = Some (JArr (JStr <$> ns)).
Proof.
  unfold order_names. split.
  - destruct (properties s !! filesOrder_key) as [[]|]; try done.
    by intros ->%mapM_str_of_inv.
  - intros ->. apply mapM_str_of_names.
Qed.

Lemma indexOf_cons_str (l : list jsval) n x :
  indexOf (JStr n :: l) x
  = if decide (n = x) then Some 0%nat else S <$> indexOf l x.
Proof. done. Qed.

Lemma indexOf_names_Some (ns : list string) x i :
  indexOf (JStr <$> ns) x = Some i -> ns !! i = Some x.
Proof.
  revert i. induction ns as [|n ns IH]; intros i; [done|].
  rewrite fmap_cons, indexOf_cons_str.
  destruct (decide (n = x)) as [->|Hne].
  - by intros [= <-].
  - intros (j & Hj & ->)%fmap_Some. simpl. by apply IH.
Qed.

Lemma indexOf_names_None (ns : list string) x :
  indexOf (JStr <$> ns) x = None <-> x ∉ ns.
Proof.
  induction ns as [|n ns IH].
  - split; [intros _; apply not_elem_of_nil|done].
  - rewrite fmap_cons, indexOf_cons_str.
    destruct (decide (n = x)) as [->|Hne].
    + split; [done|]. intros []. by left.
    + rewrite fmap_None, not_elem_of_cons, IH. split; [|tauto].
      intros ?. split; [congruence|done].
Qed.

Lemma indexOf_names_NoDup (ns : list string) x i :
  NoDup ns -> ns !! i = Some x -> indexOf (JStr <$> ns) x = Some i.
Proof.
  intros Hnd. revert i. induction Hnd as [|n ns Hn Hnd IH]; intros i; [done|].
  rewrite fmap_cons, indexOf_cons_str.
  destruct i as [|i]; simpl.
  - intros [= ->]. by rewrite decide_True.
  - intros Hi. rewrite decide_False.
    + by rewrite (IH i Hi).
    + intros ->. apply Hn. by eapply list_elem_of_lookup_2.
Qed.

Lemma table_keys_NoDup s : NoDup (table_keys s).
Proof. unfold table_keys. apply NoDup_elements. Qed.

Lemma elem_of_table_keys s k : k ∈ table_keys s <-> is_Some (files s !! k).
Proof. unfold table_keys. by rewrite elem_of_elements, elem_of_dom. Qed.

Lemma order_perm_inv s :
  order_perm s ->
  exists ns, order_names s = Some ns /\ ns ≡ₚ table_keys s /\ NoDup ns.
Proof.
  unfold order_perm. destruct (order_names s) as [ns|]; [|done].
  intros Hp. exists ns. repeat split; [done|].
  rewrite Hp. apply table_keys_NoDup.
Qed.

Lemma order_perm_intro s ns :
  order_names s = Some ns -> ns ≡ₚ table_keys s -> order_perm s.
Proof. unfold order_perm. by intros ->. Qed.

Lemma files_wf_lookup s k l :
  files_wf s -> files s !! k = Some l ->
  exists o, heap s !! l = Some o /\ name o = k.
Proof.
  intros Hwf Hk. specialize (Hwf k l Hk). simpl in Hwf.
  destruct (heap s !! l) as [o|]; [|done]. exists o. by simplify_eq/=.
Qed.

(** ** C9: removing a property *)



(** ** C7: the load routines *)

(** C7. [readFileSafe] and [readJsonSafe] return normally on every input.
    When the read throws (missing or unreadable file) the file body is the
    empty string and the properties are the empty map; when [JSON.parse]
    throws on the content read, the properties are the empty map. *)
Theorem load_routines_safe (JSON_parse : string -> completion jsval)
    (read : completion string) :
  (exists body, fst (readFileSafe read) = Return body)
  /\ (exists doc, fst (readJsonSafe JSON_parse read) = Return doc)
  /\ (forall e, readFileSafe (Throw e) = (Return "", [IoLogError]))
  /\ (forall e, readJsonSafe JSON_parse (Throw e)
                = (Return (JObj ∅), [IoLogError]))
  /\ (forall f e, JSON_parse f = Throw e ->
        fst (readJsonSafe JSON_parse (Return f)) = Return (JObj ∅)).
Proof.
  repeat split.
  - destruct read; simpl; eauto.
  - unfold readJsonSafe. destruct read as [f|e]; simpl; [|eauto].
    destruct (truthy_str f); [|eauto].
    destruct (JSON_parse f); eauto.
  - intros f e Hf. unfold readJsonSafe. rewrite Hf.
    by destruct f.
Qed.

Lemma load_routines_safe_witness :
  fst (readJsonSafe (fun _ => Throw "SyntaxError") (Return "{oops"))
  = Return (JObj ∅).
Proof.
  apply (load_routines_safe (fun _ => Throw "SyntaxError") (Return "{oops"))
    with (e := "SyntaxError").
  reflexivity.
Defined.

(** ** List surgery *)

Lemma splice_out_delete {A} (l : list A) i : splice_out i l = delete i l.
Proof. unfold splice_out. by rewrite delete_take_drop. Qed.

Lemma splice_out_perm {A} (l : list A) i x :
  l !! i = Some x -> x :: splice_out i l ≡ₚ l.
Proof. intros H. rewrite splice_out_delete. symmetry. by apply delete_Permutation. Qed.


Lemma splice_out_names (ns : list string) i :
  splice_out i (JStr <$> ns) = JStr <$> splice_out i ns.
Proof. unfold splice_out. by rewrite fmap_app, fmap_take, fmap_drop. Qed.

Lemma splice_in_names (ns : list string) i x :
  splice_in i (JStr x) (JStr <$> ns) = JStr <$> splice_in i x ns.
Proof.
  unfold splice_in. by rewrite fmap_app, fmap_cons, fmap_take, fmap_drop.
Qed.




(** ** What each structural operation does to a well-formed state *)

Lemma truthy_str_true b : truthy_str b = true <-> b <> "".
Proof. by destruct b. Qed.




Lemma truthy_inv file : truthy file = true -> exists k, file = Str k /\ k <> "".
Proof.
  destruct file as [| |k]; try done. intros H%truthy_str_true. by exists k.
Qed.

Lemma writeFile_existing k d s l o :
  k <> "" -> lookup_file k s = Some (l, o) ->
  writeFile (Str k) d s
  = (_writeFile k (set_obj l (set_data (norm_data d) o) s), Return (RRef l)).
Proof.
  intros Hk%truthy_str_true Hl. unfold writeFile. simpl. by rewrite Hk, Hl.
Qed.

Lemma writeFile_new k d s order :
  k <> "" -> lookup_file k s = None ->
  properties s !! filesOrder_key = Some (JArr order) ->
  exists s',
    writeFile (Str k) d s = (s', Return (RRef (length (heap s))))
    /\ files s' = <[k := length (heap s)]> (files s)
    /\ heap s' = heap s ++ [new_record (maxIndex s + 1) k d]
    /\ properties s'
       = <[filesOrder_key := JArr (order ++ [JStr k])]> (properties s)
    /\ maxIndex s' = (maxIndex s + 1)%Z.
Proof.
  intros Hk%truthy_str_true Hl Hp. unfold writeFile. simpl.
  rewrite Hk, Hl. simpl. rewrite Hp.
  eexists. split; [reflexivity|].
  set (s5 := set_obj _ _ _).
  assert (files s5 = <[k := length (heap s)]> (files s)) as Hf.
  { unfold s5. simpl. by rewrite writeProperties_files. }
  assert (heap s5 = heap s ++ [MkFile (maxIndex s + 1) k (Some (norm_data d))
                                      JUndef no_flags]) as Hh.
  { unfold s5. simpl. rewrite writeProperties_heap. simpl.
    rewrite insert_app_r_alt by lia. by rewrite Nat.sub_diag. }
  assert (lookup_file k s5
          = Some (length (heap s),
                  MkFile (maxIndex s + 1) k (Some (norm_data d)) JUndef no_flags))
    as Hlk.
  { apply lookup_file_Some. rewrite Hf, Hh. split; [apply lookup_insert_eq|].
    rewrite lookup_app_r by lia. by rewrite Nat.sub_diag. }
  assert (properties s5
          = <[filesOrder_key := JArr (order ++ [JStr k])]> (properties s)
          /\ maxIndex s5 = (maxIndex s + 1)%Z) as Hpm.
  { unfold s5. simpl.
    by rewrite writeProperties_properties, writeProperties_maxIndex. }
  clearbody s5.
  rewrite writeFile_req_files, writeFile_req_properties, writeFile_req_maxIndex.
  split; [done|]. split; [|done].
  unfold _writeFile. rewrite Hlk. simpl. rewrite Hh.
  rewrite insert_app_r_alt by lia. by rewrite Nat.sub_diag.
Qed.

(** When [filesOrder] is not an array, a first write throws after the
    record has been created. *)
Lemma writeFile_new_throws k d s :
  k <> "" -> lookup_file k s = None ->
  (forall order, properties s !! filesOrder_key <> Some (JArr order)) ->
  exists s',
    writeFile (Str k) d s = (s', type_error)
    /\ files s' = <[k := length (heap s)]> (files s)
    /\ heap s' = heap s ++ [MkFile (maxIndex s + 1) k None JUndef no_flags]
    /\ properties s' = properties s
    /\ maxIndex s' = (maxIndex s + 1)%Z.
Proof.
  intros Hk%truthy_str_true Hl Hp. unfold writeFile. simpl.
  rewrite Hk, Hl. simpl.
  destruct (properties s !! filesOrder_key) as [[]|] eqn:E;
    try (eexists; split; [reflexivity|done]).
  by destruct (Hp l).
Qed.

Lemma removeFile_absent k s :
  lookup_file k s = None -> removeFile k s = (s, Return RUndefined).
Proof. unfold removeFile. intros ->. by destruct (truthy_str k). Qed.

Lemma removeFile_ok k s l o ns i :
  k <> "" -> lookup_file k s = Some (l, o) -> name o = k ->
  order_names s = Some ns -> NoDup ns -> ns !! i = Some k ->
  exists s',
    removeFile k s = (s', Return (RBool true))
    /\ files s' = delete k (files s)
    /\ heap s' = heap s
    /\ properties s'
       = <[filesOrder_key := JArr (JStr <$> splice_out i ns)]> (properties s)
    /\ maxIndex s' = maxIndex s.
Proof.
  intros Hk%truthy_str_true Hl Hn Hns%order_names_Some Hnd Hi.
  unfold removeFile. rewrite Hk, Hl. simpl. rewrite Hns, Hn.
  rewrite (indexOf_names_NoDup ns k i) by done.
  eexists. split; [reflexivity|].
  rewrite writeProperties_files, writeProperties_heap,
    writeProperties_properties, writeProperties_maxIndex. simpl.
  by rewrite splice_out_names.
Qed.

Lemma moveTo_fails x y s ns :
  order_names s = Some ns -> x ∉ ns \/ y ∉ ns ->
  moveTo x y s = (s, Return (RBool false)).
Proof.
  intros Hns%order_names_Some H. unfold moveTo. rewrite Hns.
  destruct (indexOf (JStr <$> ns) x) as [i|] eqn:Ex; [|done].
  destruct (indexOf (JStr <$> ns) y) as [j|] eqn:Ey; [|done].
  apply indexOf_names_Some, list_elem_of_lookup_2 in Ex.
  apply indexOf_names_Some, list_elem_of_lookup_2 in Ey. tauto.
Qed.

Lemma moveTo_ok x y s ns i j :
  order_names s = Some ns -> NoDup ns ->
  ns !! i = Some x -> ns !! j = Some y ->
  exists s',
    moveTo x y s = (s', Return (RBool true))
    /\ files s' = files s
    /\ heap s' = heap s
    /\ properties s'
       = <[filesOrder_key := JArr (JStr <$> splice_in j x (splice_out i ns))]>
           (properties s)
    /\ maxIndex s' = maxIndex s.
Proof.
  intros Hns%order_names_Some Hnd Hi Hj. unfold moveTo. rewrite Hns.
  rewrite (indexOf_names_NoDup ns x i), (indexOf_names_NoDup ns y j) by done.
  eexists. split; [reflexivity|].
  rewrite writeProperties_files, writeProperties_heap,
    writeProperties_properties, writeProperties_maxIndex. simpl.
  by rewrite splice_out_names, splice_in_names.
Qed.

(** ** The effect of a call on the file table, the heap and the counter *)

Lemma heap_le_refl s : heap_le s s.
Proof. intros l o H. by exists o. Qed.

Lemma heap_le_eq s s' : heap s' = heap s -> heap_le s s'.
Proof. intros E l o H. exists o. by rewrite E. Qed.

Lemma heap_le_trans s1 s2 s3 : heap_le s1 s2 -> heap_le s2 s3 -> heap_le s1 s3.
Proof.
  intros H12 H23 l o H. destruct (H12 l o H) as (o' & H' & Hn & Hi).
  destruct (H23 l o' H') as (o'' & H'' & Hn' & Hi').
  exists o''. split; [done|]. split; congruence.
Qed.

Lemma heap_le_set_obj s l o o' :
  heap s !! l = Some o -> name o' = name o -> index o' = index o ->
  heap_le s (set_obj l o' s).
Proof.
  intros Hl Hn Hi l' o1 H1. simpl.
  destruct (decide (l = l')) as [<-|Hne].
  - exists o'. rewrite list_lookup_insert_eq by (by eapply lookup_lt_Some).
    split; [done|]. split; congruence.
  - exists o1. by rewrite list_lookup_insert_ne.
Qed.

Lemma heap_le_writeFile_req k s : heap_le s (_writeFile k s).
Proof.
  unfold _writeFile. destruct (lookup_file k s) as [[l o]|] eqn:E;
    [|apply heap_le_refl].
  apply lookup_file_Some in E as [_ E].
  destruct (pending (fflags o)).
  - by apply heap_le_set_obj with (o := o).
  - intros l' o1 H1.
    by apply (heap_le_set_obj s l o
                (set_fflags (set_pending true (fflags o)) o)).
Qed.

Lemma heap_le_alloc s o : heap_le s (snd (alloc o s)).
Proof.
  intros l o1 H1. exists o1. simpl. by rewrite lookup_app_l_Some with (x := o1).
Qed.

Lemma copyFileObj_frame f s :
  files (snd (copyFileObj f s)) = files s
  /\ properties (snd (copyFileObj f s)) = properties s
  /\ maxIndex (snd (copyFileObj f s)) = maxIndex s
  /\ heap_le s (snd (copyFileObj f s)).
Proof.
  unfold copyFileObj. destruct f as [l|]; [|by auto using heap_le_refl].
  destruct (heap s !! l) as [o|]; [|by auto using heap_le_refl].
  simpl. repeat split; try done.
  apply (heap_le_alloc s (MkFile (index o) (name o) (data o) (selected o)
                                 no_flags)).
Qed.

Lemma getFileList_map_frame origObj order s :
  files (snd (getFileList_map origObj order s)) = files s
  /\ properties (snd (getFileList_map origObj order s)) = properties s
  /\ maxIndex (snd (getFileList_map origObj order s)) = maxIndex s
  /\ heap_le s (snd (getFileList_map origObj order s)).
Proof.
  revert s. induction order as [|v order IH]; intros s; simpl.
  - by auto using heap_le_refl.
  - destruct origObj.
    + specialize (IH s). destruct (getFileList_map true order s). apply IH.
    + destruct (copyFileObj_frame (files s !! js_toString v) s)
        as (Hf & Hp & Hm & Hh).
      destruct (copyFileObj (files s !! js_toString v) s) as [e s1].
      specialize (IH s1). destruct (getFileList_map false order s1) as [es s2].
      simpl in *. destruct IH as (Hf' & Hp' & Hm' & Hh').
      repeat split; try congruence. by eapply heap_le_trans.
Qed.

Ltac frame_simpl :=
  simpl;
  rewrite ?writeProperties_files, ?writeProperties_heap,
    ?writeProperties_maxIndex, ?writeProperties_properties,
    ?writeFile_req_files, ?writeFile_req_maxIndex,
    ?writeFile_req_properties;
  simpl.

Ltac core_unchanged :=
  apply core_same; frame_simpl;
  first [done | apply heap_le_refl | apply heap_le_eq; by frame_simpl].

Lemma writeFile_core file d s : core_effect s (fst (writeFile file d s)).
Proof.
  destruct (truthy file) eqn:Ht.
  - destruct (truthy_inv _ Ht) as (k & -> & Hk).
    destruct (lookup_file k s) as [[l o]|] eqn:El.
    + rewrite (writeFile_existing k d s l o Hk El).
      apply lookup_file_Some in El as [_ El].
      apply core_same; frame_simpl; [done..|].
      eapply heap_le_trans; [|apply heap_le_writeFile_req].
      by apply heap_le_set_obj with (o := o).
    + destruct (properties s !! filesOrder_key) as [v|] eqn:Ep.
      * destruct v;
          try (destruct (writeFile_new_throws k d s Hk El)
                 as (s' & -> & Hf & Hh & _ & Hm);
               [intros order; by rewrite Ep|];
               by eapply core_insert).
        destruct (writeFile_new k d s l Hk El Ep) as (s' & -> & Hf & Hh & _ & Hm).
        by eapply core_insert.
      * destruct (writeFile_new_throws k d s Hk El)
          as (s' & -> & Hf & Hh & _ & Hm); [intros order; by rewrite Ep|].
        by eapply core_insert.
  - unfold writeFile. rewrite Ht. core_unchanged.
Qed.

Lemma removeFile_core k s : core_effect s (fst (removeFile k s)).
Proof.
  unfold removeFile. destruct (truthy_str k); [|core_unchanged]. simpl.
  destruct (lookup_file k s) as [[l o]|]; [|core_unchanged].
  destruct (properties s !! filesOrder_key) as [[]|]; try core_unchanged.
  apply core_delete with (k := name o); by frame_simpl.
Qed.

Lemma renameFile_core a b s : core_effect s (fst (renameFile a b s)).
Proof.
  unfold renameFile. destruct (truthy_str b); [|core_unchanged]. simpl.
  destruct (lookup_file a s) as [[l o]|] eqn:El; [|core_unchanged].
  apply lookup_file_Some in El as [Ea El].
  destruct (files s !! b) eqn:Eb; [core_unchanged|].
  destruct (properties s !! filesOrder_key) as [[]|]; try core_unchanged;
    by apply core_rename with (a := a) (b := b) (l := l) (o := o); frame_simpl.
Qed.

Lemma moveTo_core x y s : core_effect s (fst (moveTo x y s)).
Proof.
  unfold moveTo.
  destruct (properties s !! filesOrder_key) as [[| | | |str|order|]|];
    try core_unchanged.
  - destruct (str_indexOf str x); [|core_unchanged].
    destruct (str_indexOf str y); core_unchanged.
  - destruct (indexOf order x); [|core_unchanged].
    destruct (indexOf order y); core_unchanged.
Qed.

Lemma getFileList_core b s : core_effect s (fst (getFileList b s)).
Proof.
  unfold getFileList.
  destruct (properties s !! filesOrder_key) as [[| | | | |order|]|];
    try core_unchanged.
  destruct (getFileList_map_frame b order s) as (Hf & _ & Hm & Hh).
  destruct (getFileList_map b order s) as [es s']. by apply core_same.
Qed.

Lemma exec_core c s : core_effect s (fst (exec c s)).
Proof.
  destruct c; simpl.
  - core_unchanged.
  - unfold existsFile. destruct (files s !! key file); core_unchanged.
  - apply getFileList_core.
  - apply writeFile_core.
  - unfold updateFile, existsFile. destruct (files s !! key file); simpl.
    + apply writeFile_core.
    + core_unchanged.
  - unfold readFile. destruct file as [| |f]; try core_unchanged.
    destruct (truthy_str f); [|core_unchanged]. simpl.
    destruct (lookup_file f s) as [[? o]|]; [|core_unchanged].
    destruct (data o); core_unchanged.
  - apply removeFile_core.
  - apply renameFile_core.
  - apply moveTo_core.
  - core_unchanged.
  - core_unchanged.
  - destruct obj; core_unchanged.
  - core_unchanged.
  - unfold removeProperty.
    destruct (hasProperty nm s && _); core_unchanged.
Qed.

Lemma core_effect_files_wf s s' :
  core_effect s s' -> files_wf s -> files_wf s'.
Proof.
  intros [Hf Hm Hh|k o Hf Hh Hn Hi Hm|k Hf Hh Hm|a b l o Ha Hl Hb Hf Hh Hm] Hwf;
    unfold files_wf; rewrite Hf.
  - intros k l Hk. destruct (files_wf_lookup s k l Hwf Hk) as (o & Ho & Hn).
    destruct (Hh l o Ho) as (o' & -> & Hn' & _). simpl. congruence.
  - apply map_Forall_insert_2.
    + rewrite Hh, lookup_app_r by lia. rewrite Nat.sub_diag. simpl. by rewrite Hn.
    + intros k' l' Hk'.
      destruct (files_wf_lookup s k' l' Hwf Hk') as (o' & Ho' & Hn').
      rewrite Hh. rewrite (lookup_app_l_Some _ _ _ _ Ho'). simpl. by rewrite Hn'.
  - rewrite Hh. by apply map_Forall_delete.
  - apply map_Forall_insert_2.
    + rewrite Hh, list_lookup_insert_eq by (by eapply lookup_lt_Some). done.
    + intros k' l' [Hne Hk']%lookup_delete_Some.
      destruct (files_wf_lookup s k' l' Hwf Hk') as (o' & Ho' & Hn').
      rewrite Hh, list_lookup_insert_ne; [by rewrite Ho'; simpl; rewrite Hn'|].
      intros <-. congruence.
Qed.

Lemma core_effect_index_bound s s' :
  core_effect s s' -> files_wf s -> index_bound s ->
  index_bound s' /\ (maxIndex s <= maxIndex s')%Z.
Proof.
  intros [Hf Hm Hh|k o Hf Hh Hn Hi Hm|k Hf Hh Hm|a b l o Ha Hl Hb Hf Hh Hm]
    Hwf Hib; (split; [|lia]); unfold index_bound; rewrite Hf, Hm.
  - intros k l Hk. destruct (files_wf_lookup s k l Hwf Hk) as (o & Ho & Hn).
    specialize (Hib k l Hk). simpl in Hib. rewrite Ho in Hib.
    destruct (Hh l o Ho) as (o' & -> & _ & Hi'). simpl. lia.
  - apply map_Forall_insert_2.
    + rewrite Hh, lookup_app_r by lia. rewrite Nat.sub_diag. simpl. lia.
    + intros k' l' Hk'.
      destruct (files_wf_lookup s k' l' Hwf Hk') as (o' & Ho' & Hn').
      specialize (Hib k' l' Hk'). simpl in Hib. rewrite Ho' in Hib.
      rewrite Hh. rewrite (lookup_app_l_Some _ _ _ _ Ho'). lia.
  - rewrite Hh. by apply map_Forall_delete.
  - assert (Hio := Hib a l Ha). simpl in Hio. rewrite Hl in Hio.
    apply map_Forall_insert_2.
    + rewrite Hh, list_lookup_insert_eq by (by eapply lookup_lt_Some). done.
    + intros k' l' [Hne Hk']%lookup_delete_Some.
      assert (Hk := Hib k' l' Hk'). simpl in Hk.
      rewrite Hh. destruct (decide (l = l')) as [<-|Hll].
      * rewrite list_lookup_insert_eq by (by eapply lookup_lt_Some). done.
      * by rewrite list_lookup_insert_ne.
Qed.

(** ** Calls that keep [filesOrder] in step with the table *)

Lemma order_perm_ext s s' :
  files s' = files s ->
  properties s' !! filesOrder_key = properties s !! filesOrder_key ->
  order_perm s -> order_perm s'.
Proof.
  unfold order_perm, order_names, table_keys. by intros -> ->.
Qed.



Lemma elem_of_order s ns k :
  ns ≡ₚ table_keys s -> is_Some (files s !! k) -> exists i, ns !! i = Some k.
Proof.
  intros Hp Hk. apply list_elem_of_lookup_1. rewrite Hp.
  by apply elem_of_table_keys.
Qed.







(** Closed facts about the example states are settled by evaluation. *)
Ltac by_eval := refine (bool_decide_unpack _ _); vm_compute; exact I.
Ltac refute_by_eval H :=
  let H' := fresh in
  pose proof (bool_decide_pack _ H) as H'; vm_compute in H'; exact H'.

(** ** C2: [filesOrder] and the file table *)


(** The bulk assignment has the same effect. *)
Lemma order_invariant_setProperties_example :
  ~ order_perm
      (fst (exec (SetProperties (Some {[ filesOrder_key := JNull ]})) st_ab)).
Proof. intros H. refute_by_eval H. Qed.



(** The callbacks of the host leave the table and [filesOrder] alone. *)
Lemma host_frame (e : host_event) (s : Storage) :
  files (host e s) = files s
  /\ properties (host e s) = properties s
  /\ maxIndex (host e s) = maxIndex s
  /\ heap_le s (host e s).
Proof.
  destruct e as [l err|err|[l|]]; simpl.
  - unfold _writeFile_done. destruct (heap s !! l) as [o|] eqn:El;
      [|by auto using heap_le_refl].
    simpl. destruct (waiting (fflags o)).
    + frame_simpl. repeat split; try done.
      eapply heap_le_trans; [|apply heap_le_writeFile_req].
      by apply heap_le_set_obj with (o := o).
    + destruct err; repeat split; try done.
      * by apply (heap_le_set_obj s l o
          (set_fflags (set_timeout (Some (next_timer s))
             (set_pending false (fflags o))) o)).
      * by apply heap_le_set_obj with (o := o).
  - unfold _writeProperties_done. simpl.
    destruct (waiting (pflags s)).
    + frame_simpl. repeat split; try done. apply heap_le_eq. by frame_simpl.
    + destruct err; repeat split; try done; by apply heap_le_eq.
  - destruct (heap s !! l) as [o|]; [|by auto using heap_le_refl].
    frame_simpl. repeat split; try done. apply heap_le_writeFile_req.
  - frame_simpl. repeat split; try done. apply heap_le_eq. by frame_simpl.
Qed.

Lemma host_preserves_invariant (e : host_event) (s : Storage) :
  files_wf s -> order_perm s ->
  files_wf (host e s) /\ order_perm (host e s).
Proof.
  intros Hwf Hop. destruct (host_frame e s) as (Hf & Hp & Hm & Hh). split.
  - apply core_effect_files_wf with (s := s); [by apply core_same|done].
  - apply order_perm_ext with (s := s); by rewrite ?Hp.
Qed.

(** ** C6: renaming *)



(** ** C4: moving a name *)

Lemma splice_in_lookup {A} (l : list A) j x :
  (j <= length l)%nat -> splice_in j x l !! j = Some x.
Proof.
  intros Hj. unfold splice_in.
  rewrite lookup_app_r by (rewrite length_take_le; lia).
  rewrite length_take_le by lia. by rewrite Nat.sub_diag.
Qed.

Lemma splice_in_lookup_succ {A} (l : list A) j x :
  (j <= length l)%nat -> splice_in j x l !! S j = l !! j.
Proof.
  intros Hj. unfold splice_in.
  rewrite lookup_app_r by (rewrite length_take_le; lia).
  rewrite length_take_le by lia.
  replace (S j - j)%nat with 1%nat by lia. simpl.
  rewrite lookup_drop. f_equal. lia.
Qed.

Lemma splice_in_lookup_lt {A} (l : list A) j k x :
  (k < j <= length l)%nat -> splice_in j x l !! k = l !! k.
Proof.
  intros Hk. unfold splice_in.
  rewrite lookup_app_l by (rewrite length_take_le; lia).
  apply lookup_take_lt. lia.
Qed.

Lemma filter_splice_out (ns : list string) i x :
  ns !! i = Some x ->
  filter (fun n => n <> x) (splice_out i ns) = filter (fun n => n <> x) ns.
Proof.
  intros Hi. rewrite <- (take_drop_middle ns i x Hi) at 2.
  unfold splice_out. rewrite !filter_app. f_equal.
  by rewrite filter_cons_False by (intros ?; done).
Qed.

Lemma filter_splice_in (ns : list string) j x :
  filter (fun n => n <> x) (splice_in j x ns) = filter (fun n => n <> x) ns.
Proof.
  unfold splice_in. rewrite filter_app.
  rewrite filter_cons_False by (intros ?; done).
  by rewrite <- filter_app, take_drop.
Qed.

Lemma splice_same {A} (l : list A) i x :
  l !! i = Some x -> splice_in i x (splice_out i l) = l.
Proof.
  intros Hi. assert (i < length l)%nat by by eapply lookup_lt_Some.
  unfold splice_in, splice_out.
  rewrite take_app_le by (rewrite length_take; lia).
  rewrite take_take, Nat.min_id.
  rewrite drop_app_ge by (rewrite length_take; lia).
  rewrite length_take_le by lia. rewrite Nat.sub_diag. simpl.
  by apply take_drop_middle.
Qed.

(** C4, as stated, fails: with [filesOrder = [a, b, c]], [moveTo(a, c)]
    leaves [[b, c, a]].  The name [a] ends up after [c], at the index [c]
    had, not before it. *)
Lemma moveTo_before_counterexample :
  order_perm st_abc
  /\ order_names st_abc = Some ["a"; "b"; "c"]
  /\ order_names (fst (moveTo "a" "c" st_abc)) = Some ["b"; "c"; "a"]
  /\ ~ immediately_before "a" "c" ["b"; "c"; "a"]
  /\ ["b"; "c"; "a"] !! 1%nat <> Some "a".
Proof.
  split; [by_eval|]. split; [reflexivity|]. split; [reflexivity|].
  split; [|discriminate].
  intros [i [H1 H2]]. destruct i as [|[|[|i]]]; simpl in *; discriminate.
Qed.

(** C4 (amended). From a state in which [filesOrder] is a permutation of
    the keys: when [x] or [y] is not in [filesOrder], [moveTo(x, y)]
    returns [false] and changes nothing; when both are, it returns [true]
    and [x] ends up at the index [y] had before the call, the other names
    keeping their relative order.  So [x] stands right before [y] when it
    came after [y], right after [y] when it came before [y], and nothing
    moves when [x] is [y]. *)
Theorem moveTo_contract (x y : string) (s : Storage) :
  order_perm s ->
  exists ns,
    order_names s = Some ns
    /\ (x ∉ ns \/ y ∉ ns -> moveTo x y s = (s, Return (RBool false)))
    /\ (forall i j, ns !! i = Some x -> ns !! j = Some y ->
        exists s' ns',
          moveTo x y s = (s', Return (RBool true))
          /\ order_names s' = Some ns'
          /\ files s' = files s
          /\ ns' !! j = Some x
          /\ filter (fun n => n <> x) ns' = filter (fun n => n <> x) ns
          /\ ((j < i)%nat -> ns' !! S j = Some y)
          /\ ((i < j)%nat -> ns' !! (j - 1)%nat = Some y)
          /\ (i = j -> ns' = ns)).
Proof.
  intros Hop. destruct (order_perm_inv s Hop) as (ns & Hns & Hp & Hnd).
  exists ns. split; [done|]. split.
  - intros H. by apply moveTo_fails with (ns := ns).
  - intros i j Hi Hj.
    destruct (moveTo_ok x y s ns i j Hns Hnd Hi Hj)
      as (s' & Hr & Hf & Hh & Hpr & Hm).
    exists s', (splice_in j x (splice_out i ns)).
    assert (i < length ns)%nat as Hli by by eapply lookup_lt_Some.
    assert (j < length ns)%nat as Hlj by by eapply lookup_lt_Some.
    assert (length (splice_out i ns) = (length ns - 1)%nat) as Hlen.
    { rewrite splice_out_delete, length_delete by done. lia. }
    repeat split; try done.
    + apply order_names_Some. rewrite Hpr. apply lookup_insert_eq.
    + apply splice_in_lookup. lia.
    + by rewrite filter_splice_in, filter_splice_out.
    + intros Hji. rewrite splice_in_lookup_succ by lia.
      rewrite splice_out_delete, list_lookup_delete_lt by lia. done.
    + intros Hij. rewrite splice_in_lookup_lt by lia.
      rewrite splice_out_delete, list_lookup_delete_ge by lia.
      by replace (S (j - 1)) with j by lia.
    + intros <-. by apply splice_same.
Qed.

Lemma moveTo_contract_witness :
  exists ns,
    order_names st_abc = Some ns
    /\ (("c" : string) ∉ ns \/ ("a" : string) ∉ ns ->
        moveTo "c" "a" st_abc = (st_abc, Return (RBool false)))
    /\ (forall i j, ns !! i = Some "c" -> ns !! j = Some "a" ->
        exists s' ns',
          moveTo "c" "a" st_abc = (s', Return (RBool true))
          /\ order_names s' = Some ns'
          /\ files s' = files st_abc
          /\ ns' !! j = Some "c"
          /\ filter (fun n => n <> "c") ns' = filter (fun n => n <> "c") ns
          /\ ((j < i)%nat -> ns' !! S j = Some "a")
          /\ ((i < j)%nat -> ns' !! (j - 1)%nat = Some "a")
          /\ (i = j -> ns' = ns)).
Proof.
  apply (moveTo_contract "c" "a" st_abc). by_eval.
Defined.

(** ** C1: indices *)





Lemma run_invariants cs s :
  files_wf s -> index_bound s ->
  files_wf (fst (run cs s)) /\ index_bound (fst (run cs s)).
Proof.
  revert s. induction cs as [|c cs IH]; intros s Hwf Hib; simpl; [done|].
  specialize (IH (fst (exec c s))).
  destruct (run cs (fst (exec c s))) as [s' ixs]. simpl in *.
  apply IH.
  - eapply core_effect_files_wf; [apply exec_core|done].
  - by eapply core_effect_index_bound; [apply exec_core|..].
Qed.




(** A store opened on an empty directory with an empty properties
    document is [st_empty]. *)
Lemma st_empty_bootstrap decodeURIComponent JSON_parse :
  Storage_new decodeURIComponent JSON_parse [] (Return "") = Some st_empty.
Proof. reflexivity. Qed.




(** ** C8: listing the files *)

Lemma getFileList_map_raw (ns : list string) s :
  getFileList_map true (JStr <$> ns) s
  = ((fun n => files s !! n) <$> ns, s).
Proof.
  induction ns as [|n ns IH]; [done|].
  rewrite !fmap_cons. simpl. by rewrite IH.
Qed.

Lemma record_of_extend s ext n o :
  record_of s n = Some o -> record_of (set_heap (heap s ++ ext) s) n = Some o.
Proof.
  unfold record_of. intros ([l o'] & Hl & Ho)%fmap_Some.
  simpl in Ho. subst o'. apply lookup_file_Some in Hl as [Hf Hh].
  rewrite (proj2 (lookup_file_Some n (set_heap (heap s ++ ext) s) l o)); [done|].
  split; [done|]. simpl. by apply lookup_app_l_Some.
Qed.

Lemma getFileList_map_copies (ns : list string) (os : list FileObj) s ext :
  mapM (record_of s) ns = Some os ->
  getFileList_map false (JStr <$> ns) (set_heap (heap s ++ ext) s)
  = (Some <$> seq (length (heap s ++ ext)) (length ns),
     set_heap (heap s ++ ext ++ (copy_of <$> os)) s).
Proof.
  revert os ext. induction ns as [|n ns IH]; intros os ext Hos.
  - apply mapM_Some in Hos. inversion Hos; subst. simpl.
    by rewrite app_nil_r.
  - apply mapM_Some in Hos. inversion Hos as [|? o ? os' Hn Hrest]; subst.
    apply mapM_Some in Hrest.
    rewrite fmap_cons. simpl getFileList_map.
    assert (Hn' := record_of_extend s ext n o Hn).
    unfold record_of in Hn'. apply fmap_Some in Hn' as ([l o'] & Hl & Ho).
    simpl in Ho. subst o'.
    apply lookup_file_Some in Hl as [Hf Hh]. simpl in Hf, Hh.
    unfold copyFileObj. simpl files. rewrite Hf. simpl heap. rewrite Hh.
    simpl. fold (copy_of o).
    replace (set_heap ((heap s ++ ext) ++ [copy_of o])
               (set_heap (heap s ++ ext) s))
      with (set_heap (heap s ++ (ext ++ [copy_of o])) s)
      by (unfold set_heap; simpl; by rewrite app_assoc).
    rewrite (IH os' (ext ++ [copy_of o]) Hrest).
    rewrite !length_app. simpl. f_equal.
    + f_equal. f_equal. f_equal. lia.
    + by rewrite <- !app_assoc.
Qed.

Lemma set_heap_id s : set_heap (heap s ++ []) s = s.
Proof. destruct s. unfold set_heap. simpl. by rewrite app_nil_r. Qed.

Lemma records_of_order s ns :
  files_wf s -> (forall n, n ∈ ns -> is_Some (files s !! n)) ->
  exists os,
    mapM (record_of s) ns = Some os
    /\ Forall2 (fun n o => exists l, files s !! n = Some l
                             /\ heap s !! l = Some o /\ name o = n) ns os.
Proof.
  intros Hwf. induction ns as [|n ns IH]; intros Hin.
  - exists []. split; [done|constructor].
  - destruct IH as (os & Hos & Hall).
    { intros n' ?. apply Hin. by right. }
    destruct (Hin n) as [l Hl]; [by left|].
    destruct (files_wf_lookup s n l Hwf Hl) as (o & Ho & Hn).
    exists (o :: os). split.
    + apply mapM_Some. constructor; [|by apply mapM_Some].
      unfold record_of. by rewrite (proj2 (lookup_file_Some n s l o)).
    + constructor; [|done]. by exists l.
Qed.

(** C8. From a state satisfying the invariants, [getFileList] returns one
    entry per key of the file table, in the order of [filesOrder].  With a
    truthy argument the entries are the references held by the table, so
    an assignment through one of them changes the record in the table.
    By default the entries are fresh objects holding the [index], [name],
    [data] and [selected] of the records and nothing else; the table and
    the records are left as they were, and an assignment through a
    returned entry changes no record of the table. *)
Theorem getFileList_contract (s : Storage) :
  files_wf s -> order_perm s ->
  exists ns os,
    order_names s = Some ns /\ ns ≡ₚ table_keys s
    /\ Forall2 (fun n o => exists l, files s !! n = Some l
                             /\ heap s !! l = Some o /\ name o = n) ns os
    /\ getFileList true s
       = (s, Return (RList ((fun n => files s !! n) <$> ns)))
    /\ (forall n l o', files s !! n = Some l ->
          lookup_file n (set_obj l o' s) = Some (l, o'))
    /\ exists s',
         getFileList false s
         = (s', Return (RList (Some <$> seq (length (heap s)) (length ns))))
         /\ files s' = files s /\ properties s' = properties s
         /\ heap s' = heap s ++ (copy_of <$> os)
         /\ (forall i o, os !! i = Some o ->
               heap s' !! (length (heap s) + i)%nat
               = Some (MkFile (index o) (name o) (data o) (selected o)
                              no_flags))
         /\ (forall k, lookup_file k s' = lookup_file k s)
         /\ (forall l o' k, l ∈ seq (length (heap s)) (length ns) ->
               lookup_file k (set_obj l o' s') = lookup_file k s).
Proof.
  intros Hwf Hop. destruct (order_perm_inv s Hop) as (ns & Hns & Hp & Hnd).
  destruct (records_of_order s ns Hwf) as (os & Hos & Hall).
  { intros n Hn. apply elem_of_table_keys. by rewrite <- Hp. }
  exists ns, os. split; [done|]. split; [done|]. split; [done|].
  assert (Hpr := proj1 (order_names_Some s ns) Hns).
  split; [|split].
  - unfold getFileList. by rewrite Hpr, getFileList_map_raw.
  - intros n l o' Hl. destruct (files_wf_lookup s n l Hwf Hl) as (o & Ho & _).
    apply lookup_file_Some. split; [done|]. simpl.
    apply list_lookup_insert_eq. by eapply lookup_lt_Some.
  - assert (Hg := getFileList_map_copies ns os s [] Hos).
    rewrite set_heap_id, app_nil_r, app_nil_l in Hg.
    exists (set_heap (heap s ++ (copy_of <$> os)) s).
    assert (forall k l, files s !! k = Some l -> (l < length (heap s))%nat)
      as Hlt.
    { intros k l Hl. destruct (files_wf_lookup s k l Hwf Hl) as (o & Ho & _).
      by eapply lookup_lt_Some. }
    split; [|split; [done|split; [done|split; [done|split; [|split]]]]].
    + unfold getFileList. by rewrite Hpr, Hg.
    + intros i o Hi. simpl.
      rewrite lookup_app_r by lia.
      replace (length (heap s) + i - length (heap s))%nat with i by lia.
      by rewrite list_lookup_fmap, Hi.
    + intros k. unfold lookup_file. simpl.
      destruct (files s !! k) as [l|] eqn:El; [|done].
      by rewrite lookup_app_l by by eapply Hlt.
    + intros l o' k Hl%elem_of_seq. unfold lookup_file. simpl.
      destruct (files s !! k) as [l0|] eqn:El; [|done].
      assert (l0 < length (heap s))%nat by by eapply Hlt.
      rewrite list_lookup_insert_ne by lia.
      by rewrite lookup_app_l by done.
Qed.

Lemma getFileList_contract_witness :
  exists ns os,
    order_names st_ab = Some ns /\ ns ≡ₚ table_keys st_ab
    /\ Forall2 (fun n o => exists l, files st_ab !! n = Some l
                             /\ heap st_ab !! l = Some o /\ name o = n) ns os
    /\ getFileList true st_ab
       = (st_ab, Return (RList ((fun n => files st_ab !! n) <$> ns)))
    /\ (forall n l o', files st_ab !! n = Some l ->
          lookup_file n (set_obj l o' st_ab) = Some (l, o'))
    /\ exists s',
         getFileList false st_ab
         = (s', Return (RList (Some <$> seq (length (heap st_ab)) (length ns))))
         /\ files s' = files st_ab /\ properties s' = properties st_ab
         /\ heap s' = heap st_ab ++ (copy_of <$> os)
         /\ (forall i o, os !! i = Some o ->
               heap s' !! (length (heap st_ab) + i)%nat
               = Some (MkFile (index o) (name o) (data o) (selected o)
                              no_flags))
         /\ (forall k, lookup_file k s' = lookup_file k st_ab)
         /\ (forall l o' k, l ∈ seq (length (heap st_ab)) (length ns) ->
               lookup_file k (set_obj l o' s') = lookup_file k st_ab).
Proof.
  apply (getFileList_contract st_ab).
  - by_eval.
  - by_eval.
Defined.

(** The listing of the example state, evaluated. *)
Example getFileList_example :
  snd (getFileList false st_ab) = Return (RList [Some 2%nat; Some 3%nat])
  /\ heap (fst (getFileList false st_ab))
     = [fileA; fileB; copy_of fileA; copy_of fileB]
  /\ snd (getFileList true st_ab) = Return (RList [Some 0%nat; Some 1%nat]).
Proof. by vm_compute. Qed.

(** ** C5: the order computed at bootstrap *)

Section Sort.
Context {A : Type} (comparefn : A -> A -> Z).

Lemma sort_insert_perm x l : sort_insert comparefn x l ≡ₚ x :: l.
Proof.
  induction l as [|y l IH]; simpl; [done|].
  destruct (0 <? comparefn y x)%Z; [|done].
  rewrite IH. apply Permutation_swap.
Qed.

Lemma array_sort_perm l : array_sort comparefn l ≡ₚ l.
Proof.
  unfold array_sort. rewrite reverse_Permutation.
  assert (forall acc,
            fold_left (fun acc x => sort_insert comparefn x acc) l acc
            ≡ₚ acc ++ l) as H.
  { induction l as [|x l IH]; intros acc; simpl.
    - by rewrite app_nil_r.
    - rewrite IH, sort_insert_perm. by rewrite <- Permutation_middle. }
  by rewrite H.
Qed.

(** On a set of elements on which the comparator compares a key, the
    result is sorted by that key. *)
Context (f : A -> Z) (P : A -> Prop).
Hypothesis comparefn_key :
  forall a b, P a -> P b -> (0 <? comparefn a b)%Z = (f b <? f a)%Z.

Lemma sort_insert_sorted x l :
  P x -> Forall P l -> descending f l ->
  descending f (sort_insert comparefn x l).
Proof.
  intros Hx Hl Hs. induction Hs as [|y l Hs IH Hy]; simpl.
  - repeat constructor.
  - apply Forall_cons in Hl as [Py Hl].
    rewrite (comparefn_key y x Py Hx).
    destruct (f x <? f y)%Z eqn:E.
    + apply Z.ltb_lt in E. constructor; [by apply IH|].
      rewrite sort_insert_perm. constructor; [lia|done].
    + apply Z.ltb_ge in E. constructor; [by constructor|].
      constructor; [done|].
      eapply Forall_impl; [exact Hy|]. simpl. intros z ?. lia.
Qed.

Lemma array_sort_sorted l :
  Forall P l ->
  StronglySorted (fun a b => (f a <= f b)%Z) (array_sort comparefn l).
Proof.
  intros Hl. unfold array_sort.
  assert (forall acc, Forall P acc -> descending f acc ->
            descending f
              (fold_left (fun acc x => sort_insert comparefn x acc) l acc))
    as H.
  { induction Hl as [|x l Hx Hl IH]; intros acc Hacc Hs; simpl; [done|].
    apply IH.
    - rewrite sort_insert_perm. by constructor.
    - by apply sort_insert_sorted. }
  specialize (H [] (Forall_nil_2 _) (SSorted_nil _)).
  revert H.
  generalize (fold_left (fun acc x => sort_insert comparefn x acc) l []).
  intros r Hr. induction Hr as [|y r Hr IH Hy]; [constructor|].
  rewrite reverse_cons.
  apply StronglySorted_app. split; [|split; [done|repeat constructor]].
  intros a b Ha Hb%list_elem_of_singleton. subst b.
  rewrite elem_of_reverse in Ha.
  by apply (proj1 (Forall_forall _ _) Hy).
Qed.
End Sort.

Lemma persisted_order_Some (p : gmap string jsval) l :
  persisted_order p = Some l <-> p !! filesOrder_key = Some (JArr l).
Proof.
  unfold persisted_order. destruct (p !! filesOrder_key) as [[]|]; naive_solver.
Qed.

Lemma restore_order_names s :
  order_names (restore_order s) = Some (bootstrap_order s).
Proof.
  apply order_names_Some. unfold restore_order. frame_simpl.
  apply lookup_insert_eq.
Qed.

Lemma restore_order_frame s :
  files (restore_order s) = files s /\ heap (restore_order s) = heap s
  /\ maxIndex (restore_order s) = maxIndex s.
Proof. unfold restore_order. by frame_simpl. Qed.

Lemma bootstrap_order_perm s : bootstrap_order s ≡ₚ table_keys s.
Proof. apply array_sort_perm. Qed.



(** With a persisted array that misses a key the comparator is not an
    order: here [a] is placed before [c] by index, [c] before [b] by
    index, and [b] before [a] by position.  Sorting the keys in directory
    order leaves [a] before [b]. *)
Example bootstrap_order_partial :
  let idx := index_of (st_recovered persisted_ba) in
  let cmp := order_cmp (Some [JStr "b"; JStr "a"]) idx in
  cmp "a" "c" = (-1)%Z /\ cmp "c" "b" = (-1)%Z /\ cmp "b" "a" = (-1)%Z
  /\ array_sort cmp ["a"; "c"; "b"] = ["a"; "c"; "b"].
Proof. by vm_compute. Qed.

(** ** Bootstrap establishes the invariants *)

Lemma insert_record_inv s s' k o :
  files_wf s -> index_bound s ->
  files s' = <[k := length (heap s)]> (files s) ->
  heap s' = heap s ++ [o] -> name o = k ->
  (index o <= maxIndex s')%Z -> (maxIndex s <= maxIndex s')%Z ->
  files_wf s' /\ index_bound s'.
Proof.
  intros Hwf Hib Hf Hh Hn Hi Hm. split.
  - unfold files_wf. rewrite Hf. apply map_Forall_insert_2.
    + rewrite Hh, lookup_app_r by lia. rewrite Nat.sub_diag. simpl.
      by rewrite Hn.
    + intros k' l' Hk'.
      destruct (files_wf_lookup s k' l' Hwf Hk') as (o' & Ho' & Hn').
      rewrite Hh, (lookup_app_l_Some _ _ _ _ Ho'). simpl. by rewrite Hn'.
  - unfold index_bound. rewrite Hf. apply map_Forall_insert_2.
    + rewrite Hh, lookup_app_r by lia. by rewrite Nat.sub_diag.
    + intros k' l' Hk'.
      destruct (files_wf_lookup s k' l' Hwf Hk') as (o' & Ho' & Hn').
      specialize (Hib k' l' Hk'). simpl in Hib. rewrite Ho' in Hib.
      rewrite Hh, (lookup_app_l_Some _ _ _ _ Ho'). lia.
Qed.

Lemma scan_entry_inv decodeURIComponent s entry :
  files_wf s -> index_bound s ->
  files_wf (scan_entry decodeURIComponent s entry)
  /\ index_bound (scan_entry decodeURIComponent s entry).
Proof.
  intros Hwf Hib. unfold scan_entry.
  destruct (match_entry entry.1) as [[digits encoded]|]; [|done].
  destruct (decodeURIComponent encoded) as [filename|]; [|done].
  destruct (readFileSafe entry.2) as [content log].
  destruct (maxIndex s <? parse_dec digits)%Z eqn:E.
  - apply Z.ltb_lt in E.
    eapply (insert_record_inv s); try done; simpl; lia.
  - apply Z.ltb_ge in E.
    eapply (insert_record_inv s); try done; simpl; lia.
Qed.

Lemma Storage_new_invariants decodeURIComponent JSON_parse dir read s :
  Storage_new decodeURIComponent JSON_parse dir read = Some s ->
  files_wf s /\ order_perm s /\ index_bound s.
Proof.
  unfold Storage_new.
  set (s0 := MkStorage [] (-1) ∅ ∅ no_flags 0 []).
  assert (files_wf s0 /\ index_bound s0) as Hinit
    by (split; apply map_Forall_empty).
  revert Hinit. generalize s0. clear s0.
  induction dir as [|e dir IH]; intros s0 [Hwf Hib]; simpl.
  - destruct (readJsonSafe JSON_parse read) as [[[]|] log]; try done.
    intros [= <-].
    destruct (restore_order_frame
                (set_properties m (emit_all log s0))) as (Hf & Hh & Hm).
    split; [|split].
    + unfold files_wf. by rewrite Hf, Hh.
    + apply order_perm_intro with
        (ns := bootstrap_order (set_properties m (emit_all log s0))).
      * apply restore_order_names.
      * rewrite bootstrap_order_perm. unfold table_keys. by rewrite Hf.
    + unfold index_bound. by rewrite Hf, Hh, Hm.
  - apply IH. by apply scan_entry_inv.
Qed.

(** ** C3: write-behind persistence of one unit *)

Section UnitProofs.
Context {V : Type}.
Implicit Types (u : unit_state V) (e : unit_event V).









End UnitProofs.




(** Quiescence can always be reached: two successful completions settle
    two overlapping requests. *)
Lemma overlapping_requests_settle {V} (v0 d1 d2 : V) (d0 : option V) :
  exists u,
    unit_run [Request d1; Request d2; Written 0%nat; Written 0%nat]
             (unit_idle v0 d0) = Some u
    /\ quiescent u = true /\ disk u = Some d2.
Proof. eexists. by repeat split. Qed.

(** The request halves of [_writeProperties] and [_writeFile] act on the
    flags as [unit_write] does, and hand a write to the host exactly when
    [unit_write] puts one in flight. *)
Lemma writeProperties_unit s (u : unit_state (gmap string jsval)) :
  uflags u = pflags s -> mem u = properties s ->
  pflags (_writeProperties s) = uflags (unit_write u)
  /\ io (_writeProperties s)
     = io s ++ (if pending (pflags s) then []
                else [IoClearTimeout (timeout (pflags s));
                      IoOutputJson (mem u)])
  /\ inflight (unit_write u)
     = inflight u ++ (if pending (pflags s) then [] else [mem u]).
Proof.
  intros Hf Hm. unfold _writeProperties, unit_write. rewrite Hf, Hm.
  destruct (pending (pflags s)); simpl.
  - by rewrite !app_nil_r.
  - by rewrite <- app_assoc.
Qed.

Lemma writeFile_unit k s l o (u : unit_state (option string)) :
  lookup_file k s = Some (l, o) -> uflags u = fflags o -> mem u = data o ->
  fflags <$> heap (_writeFile k s) !! l = Some (uflags (unit_write u))
  /\ io (_writeFile k s)
     = io s ++ (if pending (fflags o) then []
                else [IoClearTimeout (timeout (fflags o));
                      IoWriteFile l (index o) (name o) (mem u)])
  /\ inflight (unit_write u)
     = inflight u ++ (if pending (fflags o) then [] else [mem u]).
Proof.
  intros Hl Hf Hm. unfold _writeFile, unit_write. rewrite Hl, Hf, Hm.
  apply lookup_file_Some in Hl as [_ Hl].
  assert (l < length (heap s))%nat by by eapply lookup_lt_Some.
  destruct (pending (fflags o)); simpl.
  - rewrite list_lookup_insert_eq by done. by rewrite !app_nil_r.
  - rewrite list_lookup_insert_eq by done. by rewrite <- app_assoc.
Qed.

(** The completion callbacks act on the flags as [unit_done] does, for a
    record that is still in the table. *)
Lemma writeProperties_done_unit err s (u : unit_state (gmap string jsval)) :
  uflags u = pflags s -> unext u = next_timer s ->
  pflags (_writeProperties_done err s) = uflags (unit_done err u).
Proof.
  intros Hf Hn. unfold _writeProperties_done, unit_done. rewrite Hf, Hn. simpl.
  destruct (waiting (pflags s)); [|by destruct err].
  unfold _writeProperties, unit_write. simpl. done.
Qed.

Lemma writeFile_req_flags k s l o :
  lookup_file k s = Some (l, o) ->
  fflags <$> heap (_writeFile k s) !! l
  = Some (if pending (fflags o) then set_waiting true (fflags o)
          else set_pending true (fflags o)).
Proof.
  intros Hl. unfold _writeFile. rewrite Hl.
  apply lookup_file_Some in Hl as [_ Hl].
  assert (l < length (heap s))%nat by by eapply lookup_lt_Some.
  destruct (pending (fflags o)); simpl; by rewrite list_lookup_insert_eq.
Qed.

Lemma writeFile_done_unit err s l o (u : unit_state (option string)) :
  lookup_file (name o) s = Some (l, o) ->
  uflags u = fflags o -> unext u = next_timer s ->
  fflags <$> heap (_writeFile_done l err s) !! l
  = Some (uflags (unit_done err u)).
Proof.
  intros Hl Hf Hn. apply lookup_file_Some in Hl as [Hk Hl].
  assert (l < length (heap s))%nat by by eapply lookup_lt_Some.
  unfold _writeFile_done, unit_done. rewrite Hl, Hf, Hn. simpl.
  destruct (waiting (fflags o)).
  - set (o' := set_fflags (set_waiting false (set_pending false (fflags o)))
                          (set_fflags (set_pending false (fflags o)) o)).
    rewrite (writeFile_req_flags (name o) (set_obj l o' s) l o').
    + unfold unit_write. simpl. done.
    + apply lookup_file_Some. split; [done|]. simpl.
      by apply list_lookup_insert_eq.
  - destruct err; simpl; by rewrite list_lookup_insert_eq.
Qed.

(** ** The constructor as a whole *)

Lemma Storage_new_restore decodeURIComponent JSON_parse dir read s :
  Storage_new decodeURIComponent JSON_parse dir read = Some s ->
  exists s0,
    s = restore_order s0
    /\ fst (readJsonSafe JSON_parse read) = Return (JObj (properties s0))
    /\ files s0
       = files (fold_left (scan_entry decodeURIComponent) dir
                          (MkStorage [] (-1) ∅ ∅ no_flags 0 [])).
Proof.
  unfold Storage_new.
  destruct (readJsonSafe JSON_parse read) as [[[]|] log]; try done.
  intros [= <-]. by eexists.
Qed.

(** The scenario of the specification: the directory holds [0.a%2Etxt]
    with content [hello] and the properties hold the order [[a.txt]]. *)
Example bootstrap_scenario :
  let decode := fun s => if String.eqb s "a%2Etxt" then Return "a.txt"
                         else Return s in
  let parse := fun _ : string =>
                 Return (JObj {[ filesOrder_key := JArr [JStr "a.txt"] ]}) in
  exists s,
    Storage_new decode parse [("0.a%2Etxt", Return "hello")] (Return "doc")
    = Some s
    /\ order_names s = Some ["a.txt"]
    /\ record_of s "a.txt"
       = Some (MkFile 0 "a.txt" (Some "hello") JUndef no_flags)
    /\ index <$> record_of (fst (writeFile (Str "b.txt") (Str "world") s))
                          "b.txt" = Some 1%Z
    /\ order_names (fst (writeFile (Str "b.txt") (Str "world") s))
       = Some ["a.txt"; "b.txt"]
    /\ last (io (fst (writeFile (Str "b.txt") (Str "world") s)))
       = Some (IoWriteFile 1 1 "b.txt" (Some "world")).
Proof. eexists. split; [reflexivity|]. by vm_compute. Qed.

(** * Further properties of storage.js *)

(** ** Reading, writing and updating files *)

Lemma readFile_spec k s :
  k <> "" ->
  readFile (Str k) s = (s, Return (read_result (record_of s k))).
Proof.
  intros Hk%truthy_str_true. unfold readFile, record_of. rewrite Hk. simpl.
  destruct (lookup_file k s) as [[l o]|]; [|done]. simpl.
  by destruct (data o).
Qed.

Lemma record_of_Some s k o :
  record_of s k = Some o <->
  exists l, files s !! k = Some l /\ heap s !! l = Some o.
Proof.
  unfold record_of. rewrite fmap_Some. split.
  - intros ([l o'] & Hl%lookup_file_Some & ->). by exists l.
  - intros (l & Hf & Hh). exists (l, o). split; [|done].
    by apply lookup_file_Some.
Qed.

Lemma record_of_None_files s k : files s !! k = None -> record_of s k = None.
Proof. intros H. unfold record_of. by rewrite lookup_file_None_files. Qed.









(** ** Removing a file *)

Lemma not_elem_of_splice_out (ns : list string) i x :
  NoDup ns -> ns !! i = Some x -> x ∉ splice_out i ns.
Proof.
  intros Hnd Hi.
  assert (NoDup (x :: splice_out i ns)) as Hnd'
    by (by rewrite splice_out_perm).
  by apply NoDup_cons in Hnd' as [? _].
Qed.

Lemma filter_ne_id (ns : list string) x :
  x ∉ ns -> filter (fun n => n <> x) ns = ns.
Proof.
  induction ns as [|n ns IH]; [done|].
  intros [Hn Hns]%not_elem_of_cons.
  rewrite filter_cons_True by done. by rewrite IH.
Qed.

(** X3. Removing a known file from a store satisfying the invariants
    returns [true]; afterwards the name is unknown to [existsFile] and
    [readFile], it is gone from [filesOrder] while the other names keep
    their order, [count()] is one less, every other file reads as before,
    the unlink of the file's path has been handed to the host, and a
    second [removeFile] of the name does nothing. *)
Theorem removeFile_then_absent (f : string) (s : Storage) :
  files_wf s -> order_perm s -> is_Some (files s !! f) -> f <> "" ->
  let s' := fst (removeFile f s) in
  snd (removeFile f s) = Return (RBool true)
  /\ existsFile (Str f) s' = (s', Return RUndefined)
  /\ readFile (Str f) s' = (s', Return RUndefined)
  /\ (exists ns, order_names s = Some ns
                 /\ order_names s' = Some (filter (fun n => n <> f) ns)
                 /\ f ∉ filter (fun n => n <> f) ns)
  /\ S (size (files s')) = size (files s)
  /\ (forall k, k <> f -> k <> "" ->
        snd (readFile (Str k) s') = snd (readFile (Str k) s))
  /\ (exists o, record_of s f = Some o /\ IoUnlink (index o) f ∈ io s')
  /\ removeFile f s' = (s', Return RUndefined).
Proof.
  intros Hwf Hop [l Hf] Hne s'.
  destruct (order_perm_inv s Hop) as (ns & Hns & Hp & Hnd).
  destruct (files_wf_lookup s f l Hwf Hf) as (o & Ho & Hn).
  destruct (elem_of_order s ns f Hp) as [i Hi]; [by eexists|].
  assert (El : lookup_file f s = Some (l, o)) by by apply lookup_file_Some.
  destruct (removeFile_ok f s l o ns i Hne El Hn Hns Hnd Hi)
    as (s1 & Hr & Hf' & Hh & Hpr & Hm).
  assert (s' = s1) as -> by (unfold s'; by rewrite Hr).
  assert (files s1 !! f = None) as Hgone
    by (rewrite Hf'; apply lookup_delete_eq).
  rewrite Hr. split; [done|]. split; [|split; [|split; [|split; [|split;
    [|split]]]]].
  - unfold existsFile. simpl. by rewrite Hgone.
  - rewrite readFile_spec by done. by rewrite record_of_None_files.
  - exists ns. split; [done|].
    assert (filter (fun n => n <> f) ns = splice_out i ns) as ->.
    { rewrite <- (filter_splice_out ns i f Hi).
      by apply filter_ne_id, not_elem_of_splice_out. }
    split; [|by apply not_elem_of_splice_out].
    apply order_names_Some. rewrite Hpr. apply lookup_insert_eq.
  - rewrite Hf', map_size_delete, Hf. simpl.
    assert (size (files s) <> 0)%nat; [|lia].
    intros Hz%map_size_empty_inv. by rewrite Hz in Hf.
  - intros k Hk Hk'. rewrite !readFile_spec by done. simpl. f_equal. f_equal.
    unfold record_of, lookup_file. by rewrite Hf', Hh, lookup_delete_ne.
  - exists o. split; [by apply record_of_Some; exists l|].
    assert (io s1 = io (fst (removeFile f s))) as -> by by rewrite Hr.
    unfold removeFile. rewrite (proj2 (truthy_str_true f)) by done. simpl.
    rewrite El. rewrite (proj1 (order_names_Some s ns) Hns). simpl.
    unfold _writeProperties. simpl. rewrite Hn.
    destruct (pending (pflags s)); simpl; set_solver.
  - apply removeFile_absent. by apply lookup_file_None_files.
Qed.

Lemma removeFile_then_absent_witness :
  snd (removeFile "a" st_abc) = Return (RBool true)
  /\ existsFile (Str "a") (fst (removeFile "a" st_abc))
     = (fst (removeFile "a" st_abc), Return RUndefined)
  /\ order_names (fst (removeFile "a" st_abc)) = Some ["b"; "c"].
Proof.
  destruct (removeFile_then_absent "a" st_abc)
    as (H1 & H2 & _ & (ns & Hns & Hns' & _) & _).
  - by_eval.
  - by_eval.
  - by_eval.
  - discriminate.
  - split; [exact H1|]. split; [exact H2|].
    rewrite Hns'. injection Hns as <-. reflexivity.
Defined.

(** ** Properties *)





(** ** Renaming *)



(** ** Entry names: written by [_getFilePath], read by the directory scan *)

Lemma append_cons a d r : String a d +:+ r = String a (d +:+ r).
Proof. reflexivity. Qed.

Lemma append_nil_r d : d +:+ "" = d.
Proof. induction d as [|a d IH]; [done|]. by rewrite append_cons, IH. Qed.

Lemma append_assoc d1 d2 d3 : (d1 +:+ d2) +:+ d3 = d1 +:+ (d2 +:+ d3).
Proof.
  induction d1 as [|a d1 IH]; [done|]. by rewrite !append_cons, IH.
Qed.


Lemma span_digits_app d r :
  all_digits d = true ->
  match r with String a _ => is_digit a = false | EmptyString => True end ->
  span_digits (d +:+ r) = (d, r).
Proof.
  intros Hd Hr. induction d as [|a d IH].
  - change ("" +:+ r) with r. destruct r as [|a r]; [done|].
    simpl. by rewrite Hr.
  - simpl in Hd. apply andb_true_iff in Hd as [Ha Hd].
    rewrite append_cons. simpl. by rewrite Ha, IH.
Qed.

Lemma match_entry_intro (d r : string) :
  d <> "" -> all_digits d = true ->
  r <> "" -> no_line_terminator r = true ->
  match_entry (d +:+ "." +:+ r) = Some (d, r).
Proof.
  intros Hd Hdig Hr Hl. unfold match_entry.
  rewrite span_digits_app by done.
  destruct d as [|a d]; [done|].
  change ("." +:+ r) with (String "."%char r). cbv iota beta.
  by rewrite (proj2 (truthy_str_true r) Hr), Hl.
Qed.


Lemma dec_from_app acc d1 d2 :
  dec_from acc (d1 +:+ d2) = dec_from (dec_from acc d1) d2.
Proof.
  revert acc. induction d1 as [|a d1 IH]; intros acc; [done|].
  rewrite append_cons. unfold dec_from. simpl. apply IH.
Qed.

Lemma all_digits_app d1 d2 :
  all_digits (d1 +:+ d2) = all_digits d1 && all_digits d2.
Proof.
  induction d1 as [|a d1 IH]; [done|].
  rewrite append_cons. simpl. by rewrite IH, andb_assoc.
Qed.

Lemma pretty_N_char_digit (y : N) :
  (y < 10)%N ->
  is_digit (pretty_N_char y) = true
  /\ (Z.of_nat (nat_of_ascii (pretty_N_char y)) - 48)%Z = Z.of_N y.
Proof.
  intros Hy.
  assert (y = 0 \/ y = 1 \/ y = 2 \/ y = 3 \/ y = 4 \/ y = 5 \/ y = 6
          \/ y = 7 \/ y = 8 \/ y = 9)%N as H by lia.
  repeat (destruct H as [->|H]; [by vm_compute|]). subst. by vm_compute.
Qed.

(** The digits [pretty_N_go] puts in front of its accumulator. *)
Lemma pretty_N_go_digits (x : N) (s : string) :
  exists p,
    pretty_N_go x s = p +:+ s
    /\ all_digits p = true
    /\ ((0 < x)%N -> p <> "")
    /\ forall acc,
         dec_from acc p
         = (acc * 10 ^ Z.of_nat (String.length p) + Z.of_N x)%Z.
Proof.
  revert s. induction (N.lt_wf_0 x) as [x _ IH]; intros s.
  destruct (decide (x = 0)%N) as [->|Hx].
  - exists "". rewrite pretty_N_go_0. repeat split; [lia|].
    intros acc. unfold dec_from. simpl. lia.
  - rewrite pretty_N_go_step by lia.
    destruct (IH (x `div` 10)%N) with
      (s := String (pretty_N_char (x `mod` 10)) s)
      as (p & Hp & Hd & _ & Hv).
    { apply N.div_lt; lia. }
    destruct (pretty_N_char_digit (x `mod` 10)%N) as [Hc Hcv].
    { apply N.mod_lt. lia. }
    exists (p +:+ String (pretty_N_char (x `mod` 10)) "").
    split; [|split; [|split]].
    + by rewrite Hp, append_assoc.
    + rewrite all_digits_app, Hd. simpl. by rewrite Hc.
    + intros _. by destruct p.
    + intros acc. rewrite dec_from_app, Hv. unfold dec_from at 1. simpl.
      rewrite Hcv.
      assert (String.length (p +:+ String (pretty_N_char (x `mod` 10)) "")
              = S (String.length p)) as ->.
      { clear. induction p as [|a p IH]; [done|].
        rewrite append_cons. simpl. by rewrite IH. }
      rewrite Nat2Z.inj_succ, Z.pow_succ_r by lia.
      rewrite (N.div_mod x 10) at 3 by lia.
      rewrite N2Z.inj_add, N2Z.inj_mul. simpl Z.of_N. lia.
Qed.

Lemma pretty_index (z : Z) :
  (0 <= z)%Z ->
  all_digits (pretty z) = true /\ pretty z <> "" /\ parse_dec (pretty z) = z.
Proof.
  intros Hz. destruct z as [|p|p]; [by vm_compute| |lia].
  unfold pretty, pretty_Z, pretty, pretty_positive, pretty, pretty_N.
  rewrite decide_False by done.
  destruct (pretty_N_go_digits (N.pos p) "") as (d & Hd & Hdig & Hne & Hv).
  rewrite Hd, append_nil_r. split; [done|]. split; [apply Hne; lia|].
  unfold parse_dec. fold (dec_from 0 d). rewrite Hv. simpl. lia.
Qed.

Lemma scan_entry_owned decodeURIComponent s f read d e nm :
  match_entry f = Some (d, e) -> decodeURIComponent e = Return nm ->
  files (scan_entry decodeURIComponent s (f, read))
  = <[nm := length (heap s)]> (files s)
  /\ heap (scan_entry decodeURIComponent s (f, read))
     = heap s ++ [recovered (parse_dec d) nm read]
  /\ maxIndex (scan_entry decodeURIComponent s (f, read))
     = Z.max (maxIndex s) (parse_dec d)
  /\ properties (scan_entry decodeURIComponent s (f, read)) = properties s.
Proof.
  intros Hm Hd. unfold scan_entry, recovered. simpl. rewrite Hm, Hd.
  destruct (maxIndex s <? parse_dec d)%Z eqn:E;
    destruct (readFileSafe read) as [content0 log]; simpl;
    repeat split; try done.
  - apply Z.ltb_lt in E. lia.
  - apply Z.ltb_ge in E. lia.
Qed.

Lemma scan_entry_skipped decodeURIComponent s f read :
  match_entry f = None
  \/ (exists d e err, match_entry f = Some (d, e)
                      /\ decodeURIComponent e = Throw err) ->
  files (scan_entry decodeURIComponent s (f, read)) = files s
  /\ heap (scan_entry decodeURIComponent s (f, read)) = heap s
  /\ maxIndex (scan_entry decodeURIComponent s (f, read)) = maxIndex s
  /\ properties (scan_entry decodeURIComponent s (f, read)) = properties s.
Proof.
  unfold scan_entry. simpl. intros [->|(d & e & err & -> & ->)]; done.
Qed.

Lemma entry_name_matches enc dec o :
  name_roundtrips enc dec o ->
  exists e, enc (name o) = Return e /\ dec e = Return (name o)
            /\ match_entry (entry_name enc o) = Some (pretty (index o), e)
            /\ parse_dec (pretty (index o)) = index o.
Proof.
  intros (Hi & e & He & Hne & Hl & Hd).
  destruct (pretty_index (index o) Hi) as (Hdig & Hp & Hv).
  exists e. repeat split; try done.
  unfold entry_name, encoded_name. rewrite He. by apply match_entry_intro.
Qed.



(** ** Reloading what was persisted *)

Lemma readFileSafe_Return d : (readFileSafe (Return d)).1 = Return d.
Proof. by destruct d. Qed.

Lemma max_index_spec rs m :
  (m <= max_index rs m)%Z
  /\ (forall o, o ∈ rs -> index o <= max_index rs m)%Z
  /\ (max_index rs m = m \/ exists o, o ∈ rs /\ max_index rs m = index o).
Proof.
  revert m. induction rs as [|o rs IH]; intros m; simpl.
  - split; [lia|]. split; [by intros o ?%elem_of_nil|by left].
  - destruct (IH (Z.max m (index o))) as (H1 & H2 & H3).
    split; [lia|]. split.
    + intros o' [->|Hin]%elem_of_cons; [lia|by apply H2].
    + destruct H3 as [H3|(o' & Hin & H3)].
      * destruct (Z.max_spec m (index o)) as [[_ Hm]|[_ Hm]].
        -- right. exists o. split; [by left|]. unfold max_index in *.
           simpl. lia.
        -- left. unfold max_index in *. simpl. lia.
      * right. exists o'. split; [by right|done].
Qed.

Lemma scan_records enc dec rs s0 :
  files_wf s0 -> index_bound s0 ->
  NoDup (name <$> rs) -> Forall (name_roundtrips enc dec) rs ->
  let s1 := fold_left (scan_entry dec) (persisted_dir enc rs) s0 in
  files_wf s1 /\ index_bound s1
  /\ (forall o, o ∈ rs -> record_of s1 (name o) = Some (persisted_record o))
  /\ (forall k, k ∉ name <$> rs -> record_of s1 k = record_of s0 k)
  /\ dom (files s1) = list_to_set (name <$> rs) ∪ dom (files s0)
  /\ maxIndex s1 = max_index rs (maxIndex s0)
  /\ properties s1 = properties s0.
Proof.
  revert s0. induction rs as [|o rs IH]; intros s0 Hwf Hib Hnd Hall; simpl.
  - repeat split; try done.
    + by intros o ?%elem_of_nil.
    + by rewrite (left_id_L ∅ (∪)).
  - rewrite fmap_cons in Hnd. apply NoDup_cons in Hnd as [Hno Hnd].
    apply Forall_cons in Hall as [Ho Hall].
    destruct (entry_name_matches enc dec o Ho) as (e & He & Hd & Hm & Hv).
    set (entry := (entry_name enc o, Return (default "" (data o)))).
    destruct (scan_entry_owned dec s0 _ (Return (default "" (data o)))
                _ _ _ Hm Hd) as (Hf & Hh & Hmx & Hp).
    fold entry in Hf, Hh, Hmx, Hp. rewrite Hv in Hh, Hmx.
    destruct (scan_entry_inv dec s0 entry Hwf Hib) as [Hwf1 Hib1].
    set (s0' := scan_entry dec s0 entry) in *.
    destruct (IH s0' Hwf1 Hib1 Hnd Hall) as (Hwf2 & Hib2 & Hrec & Hoth & Hdom
                                             & Hmax & Hpr).
    assert (record_of s0' (name o) = Some (persisted_record o)) as Hrec0.
    { apply record_of_Some. exists (length (heap s0)). rewrite Hf, Hh.
      split; [apply lookup_insert_eq|].
      rewrite lookup_app_r by lia. rewrite Nat.sub_diag. simpl.
      unfold recovered, persisted_record. by rewrite readFileSafe_Return. }
    split; [done|]. split; [done|]. split; [|split; [|split; [|split]]].
    + intros o' [->|Hin]%elem_of_cons; [|by apply Hrec].
      by rewrite Hoth.
    + intros k [Hk Hkn]%not_elem_of_cons. rewrite Hoth by done.
      unfold record_of, lookup_file. rewrite Hf, Hh.
      rewrite lookup_insert_ne by done.
      destruct (files s0 !! k) as [l|] eqn:El; [|done].
      destruct (files_wf_lookup s0 k l Hwf El) as (o' & Ho' & _).
      by rewrite (lookup_app_l_Some _ _ _ _ Ho'), Ho'.
    + rewrite Hdom, Hf, dom_insert_L. simpl.
      rewrite (assoc_L (∪)). f_equal. apply (comm_L (∪)).
    + by rewrite Hmax, Hmx.
    + by rewrite Hpr.
Qed.



Lemma StronglySorted_lookup_2 {A} (R : relation A) (l : list A) :
  (forall i j a b, (i < j)%nat -> l !! i = Some a -> l !! j = Some b -> R a b) ->
  StronglySorted R l.
Proof.
  induction l as [|x l IH]; intros H; constructor.
  - apply IH. intros i j a b Hij Hi Hj. by apply (H (S i) (S j)); [lia|..].
  - apply Forall_forall. intros y [j Hj]%list_elem_of_lookup_1.
    by apply (H 0%nat (S j)); [lia|..].
Qed.

Lemma position_names (ns : list string) i x :
  NoDup ns -> ns !! i = Some x -> position (JStr <$> ns) x = Z.of_nat i.
Proof.
  intros Hnd Hi. unfold position. by rewrite (indexOf_names_NoDup ns x i).
Qed.

Lemma bootstrap_order_consistent (s : Storage) (ns : list string) :
  properties s !! filesOrder_key = Some (JArr (JStr <$> ns)) ->
  ns ≡ₚ table_keys s ->
  bootstrap_order s = ns.
Proof.
  intros Hp Hperm.
  assert (NoDup ns) as Hnd by (rewrite Hperm; apply table_keys_NoDup).
  apply (StronglySorted_unique_strong
           (fun a b => (position (JStr <$> ns) a
                        <= position (JStr <$> ns) b)%Z)).
  - intros a b Ha Hbn Hab Hba.
    rewrite bootstrap_order_perm, <- Hperm in Ha.
    apply list_elem_of_lookup_1 in Ha as [i Hi].
    apply list_elem_of_lookup_1 in Hbn as [j Hj].
    rewrite (position_names ns i a), (position_names ns j b) in * by done.
    assert (i = j) as -> by lia. congruence.
  - unfold bootstrap_order.
    rewrite (proj2 (persisted_order_Some (properties s) _) Hp).
    apply array_sort_sorted with (P := fun k => k ∈ ns).
    + intros a b [i Hi]%list_elem_of_lookup_1 [j Hj]%list_elem_of_lookup_1.
      simpl.
      rewrite (indexOf_names_NoDup ns a i), (indexOf_names_NoDup ns b j)
        by done.
      rewrite (position_names ns i a), (position_names ns j b) by done.
      destruct (j <? i)%nat eqn:E.
      * apply Nat.ltb_lt in E. symmetry. apply Z.ltb_lt. lia.
      * apply Nat.ltb_ge in E. symmetry. apply Z.ltb_ge. lia.
    + apply Forall_forall. intros k Hk. by rewrite Hperm.
  - apply StronglySorted_lookup_2. intros i j a b Hij Hi Hj.
    rewrite (position_names ns i a), (position_names ns j b) by done. lia.
  - by rewrite bootstrap_order_perm.
Qed.

(** X10. A consistent persisted order wins: when the stored [filesOrder]
    is an array of names that is a permutation of the keys of the
    recovered table, the order computed at bootstrap is that array, and
    storing it back leaves the property map as it was. *)
Theorem persisted_order_restored (s : Storage) (ns : list string) :
  properties s !! filesOrder_key = Some (JArr (JStr <$> ns)) ->
  ns ≡ₚ table_keys s ->
  bootstrap_order s = ns
  /\ order_names (restore_order s) = Some ns
  /\ properties (restore_order s) = properties s.
Proof.
  intros Hp Hperm.
  assert (Hb := bootstrap_order_consistent s ns Hp Hperm).
  split; [done|]. split; [by rewrite restore_order_names, Hb|].
  unfold restore_order. frame_simpl. rewrite Hb. by apply insert_id.
Qed.

Lemma persisted_order_restored_witness :
  bootstrap_order (st_recovered persisted_bca_valid) = ["b"; "c"; "a"]
  /\ properties (restore_order (st_recovered persisted_bca_valid))
     = persisted_bca_valid.
Proof.
  destruct (persisted_order_restored (st_recovered persisted_bca_valid)
              ["b"; "c"; "a"]) as (H1 & _ & H3).
  - reflexivity.
  - by_eval.
  - split; [exact H1|exact H3].
Defined.

(** X11. Persisting and reloading.  Take a store that satisfies the
    invariants, a files directory that holds one entry for each of its
    records, and a properties document that parses to its property map.
    A store opened on them has the same property map, hence the same
    [filesOrder], and under every name a record with the same index and
    content.  Its counter is the largest index still on disk, which is at
    most the counter of the store that was persisted. *)
Theorem persist_then_reload (enc dec : string -> completion string)
    (JSON_parse : string -> completion jsval)
    (s : Storage) (rs : list FileObj) (read : completion string)
    (s' : Storage) :
  files_wf s -> order_perm s -> index_bound s ->
  name <$> rs ≡ₚ table_keys s ->
  (forall o, o ∈ rs -> record_of s (name o) = Some o) ->
  Forall (name_roundtrips enc dec) rs ->
  (readJsonSafe JSON_parse read).1 = Return (JObj (properties s)) ->
  Storage_new dec JSON_parse (persisted_dir enc rs) read = Some s' ->
  properties s' = properties s
  /\ order_names s' = order_names s
  /\ table_keys s' ≡ₚ table_keys s
  /\ (forall k o, record_of s k = Some o ->
        record_of s' k = Some (persisted_record o))
  /\ (forall k, record_of s k = None -> record_of s' k = None)
  /\ maxIndex s' = max_index rs (-1)
  /\ (maxIndex s' <= maxIndex s \/ maxIndex s' = -1)%Z.
Proof.
  intros Hwf Hop Hib Hnames Hrec Hall Hdoc Hnew.
  assert (NoDup (name <$> rs)) as Hnd
    by (rewrite Hnames; apply table_keys_NoDup).
  destruct (order_perm_inv s Hop) as (ns & Hns & Hp & _).
  unfold Storage_new in Hnew.
  destruct (scan_records enc dec rs (MkStorage [] (-1) ∅ ∅ no_flags 0 []))
    as (_ & _ & Hscan & Hoth & Hdom & Hmax & _); try done;
    try apply map_Forall_empty.
  set (s1 := fold_left (scan_entry dec) (persisted_dir enc rs) _) in *.
  destruct (readJsonSafe JSON_parse read) as [doc log]. simpl in Hdoc.
  subst doc. injection Hnew as <-.
  set (s2 := set_properties (properties s) (emit_all log s1)).
  destruct (restore_order_frame s2) as (Hf & Hh & Hm).
  assert (table_keys s2 ≡ₚ table_keys s) as Hkeys.
  { unfold table_keys at 1. simpl. rewrite Hdom. simpl.
    rewrite dom_empty_L, (right_id_L ∅ (∪)).
    by rewrite elements_list_to_set. }
  assert (bootstrap_order s2 = ns) as Hb.
  { apply bootstrap_order_consistent.
    - by apply order_names_Some.
    - by rewrite Hkeys. }
  assert (properties (restore_order s2) = properties s) as Hprops.
  { unfold restore_order. frame_simpl. rewrite Hb. apply insert_id.
    by apply order_names_Some. }
  assert (forall k, record_of (restore_order s2) k = record_of s1 k) as Hsame.
  { intros k. unfold record_of, lookup_file. by rewrite Hf, Hh. }
  split; [done|]. split; [|split; [|split; [|split; [|split]]]].
  - unfold order_names. by rewrite Hprops.
  - unfold table_keys at 1. by rewrite Hf.
  - intros k o Hk. rewrite Hsame.
    assert (k ∈ name <$> rs) as Hin.
    { rewrite Hnames. apply elem_of_table_keys.
      apply record_of_Some in Hk as (l & Hl & _). by eexists. }
    apply list_elem_of_fmap in Hin as (o' & -> & Hin).
    rewrite (Hrec o' Hin) in Hk. injection Hk as <-. by apply Hscan.
  - intros k Hk. rewrite Hsame, Hoth; [done|].
    intros Hin. apply list_elem_of_fmap in Hin as (o' & -> & Hin).
    by rewrite (Hrec o' Hin) in Hk.
  - by rewrite Hm.
  - rewrite Hm. simpl. rewrite Hmax. simpl.
    destruct (max_index_spec rs (-1)) as (_ & _ & [->|(o & Hin & ->)]);
      [by right|left].
    assert (Ho := Hrec o Hin).
    apply record_of_Some in Ho as (l & Hl & Hh').
    specialize (Hib _ _ Hl). simpl in Hib. by rewrite Hh' in Hib.
Qed.

Lemma persist_then_reload_witness :
  exists s',
    Storage_new (fun n => Return n) (fun _ => Return (JObj (properties st_ab)))
                (persisted_dir (fun n => Return n) [fileB; fileA])
                (Return "doc") = Some s'
    /\ properties s' = properties st_ab
    /\ order_names s' = Some ["a"; "b"]
    /\ maxIndex s' = 1%Z.
Proof.
  destruct (Storage_new (fun n => Return n)
              (fun _ => Return (JObj (properties st_ab)))
              (persisted_dir (fun n => Return n) [fileB; fileA])
              (Return "doc")) as [s'|] eqn:E; [|by vm_compute in E].
  exists s'. split; [done|].
  destruct (persist_then_reload (fun n => Return n) (fun n => Return n)
              (fun _ => Return (JObj (properties st_ab)))
              st_ab [fileB; fileA] (Return "doc") s')
    as (H1 & H2 & _ & _ & _ & H6 & _).
  - by_eval.
  - by_eval.
  - by_eval.
  - by_eval.
  - intros o [->|[->|[]%elem_of_nil]%elem_of_cons]%elem_of_cons;
      reflexivity.
  - repeat constructor; try (by vm_compute).
    + exists "b". by repeat split.
    + exists "a". by repeat split.
  - reflexivity.
  - exact E.
  - split; [exact H1|]. split; [by rewrite H2|exact H6].
Defined.

(** Indices are not reused while a store lives, but after the file with
    the largest index is removed a reloaded store hands that index out
    again. *)
Example index_reused_after_reload :
  let s := fst (removeFile "b" st_ab) in
  exists s',
    Storage_new (fun n => Return n) (fun _ => Return (JObj (properties s)))
                (persisted_dir (fun n => Return n) [fileA]) (Return "doc")
    = Some s'
    /\ snd (run [WriteFile (Str "new") Null] s) = [2%Z]
    /\ snd (run [WriteFile (Str "new") Null] s') = [1%Z]
    /\ index fileB = 1%Z.
Proof. eexists. split; [reflexivity|]. by vm_compute. Qed.

(** ** What the table answers *)




(** ** A first write without an order array *)



(** ** Entries of the files directory *)

(** X14. Entries of the files directory that the pattern does not own
    change nothing: a store opened on a directory with such an entry is
    the store opened on the directory without it. *)
Theorem bootstrap_ignores_foreign (dec : string -> completion string)
    (JSON_parse : string -> completion jsval)
    (dir1 dir2 : list (string * completion string))
    (f : string) (body read : completion string) :
  match_entry f = None ->
  Storage_new dec JSON_parse (dir1 ++ (f, body) :: dir2) read
  = Storage_new dec JSON_parse (dir1 ++ dir2) read.
Proof.
  intros Hf. unfold Storage_new. rewrite !fold_left_app. simpl.
  unfold scan_entry at 2. simpl. by rewrite Hf.
Qed.

Lemma bootstrap_ignores_foreign_witness :
  Storage_new (fun n => Return n) (fun _ => Return (JObj ∅))
              ([("0.a", Return "x")] ++ (".gitkeep", Return "") :: [])
              (Return "")
  = Storage_new (fun n => Return n) (fun _ => Return (JObj ∅))
                ([("0.a", Return "x")] ++ []) (Return "").
Proof. by apply bootstrap_ignores_foreign. Defined.

(** X15. Two records that differ in index or in name never share an
    entry of the files directory, as long as their indices are not
    negative and their names survive encoding and decoding. *)
Theorem entry_names_distinct (enc dec : string -> completion string)
    (o1 o2 : FileObj) :
  name_roundtrips enc dec o1 -> name_roundtrips enc dec o2 ->
  entry_name enc o1 = entry_name enc o2 ->
  index o1 = index o2 /\ name o1 = name o2.
Proof.
  intros H1 H2 Heq.
  destruct (entry_name_matches enc dec o1 H1) as (e1 & _ & Hd1 & Hm1 & Hp1).
  destruct (entry_name_matches enc dec o2 H2) as (e2 & _ & Hd2 & Hm2 & Hp2).
  rewrite Heq, Hm2 in Hm1. injection Hm1 as Hi He. subst e2.
  split; [by rewrite <- Hp1, <- Hp2, Hi|]. congruence.
Qed.

Lemma entry_names_distinct_witness :
  entry_name (fun n => Return n) fileA <> entry_name (fun n => Return n) fileB.
Proof.
  intros Heq.
  destruct (entry_names_distinct (fun n => Return n) (fun n => Return n)
              fileA fileB) as [Hi _].
  - split; [by vm_compute|]. exists "a". by repeat split.
  - split; [by vm_compute|]. exists "b". by repeat split.
  - exact Heq.
  - by vm_compute in Hi.
Defined.

(** ** Writes reach the host *)

Lemma lookup_file_set_obj k l o' s :
  files s !! k = Some l -> (l < length (heap s))%nat ->
  lookup_file k (set_obj l o' s) = Some (l, o').
Proof.
  intros Hf Hlt. apply lookup_file_Some. simpl. split; [done|].
  by apply list_lookup_insert_eq.
Qed.

Lemma set_obj_set_obj l o1 o2 s :
  set_obj l o2 (set_obj l o1 s) = set_obj l o2 s.
Proof. unfold set_obj, set_heap. simpl. by rewrite list_insert_insert_eq. Qed.

Lemma heap_set_obj l o' s :
  (l < length (heap s))%nat -> heap (set_obj l o' s) !! l = Some o'.
Proof. intros Hlt. simpl. by apply list_lookup_insert_eq. Qed.

(** X16. A write to an existing record is handed to [fs.writeFile] with
    the data given: at once when no write of the record is in flight, and
    otherwise by the completion callback of the write in flight, whether
    that write failed or not. *)
Theorem writeFile_reaches_host (k : string) (d : arg) (s : Storage)
    (l : nat) (o : FileObj) :
  k <> "" -> lookup_file k s = Some (l, o) -> name o = k ->
  let s1 := fst (writeFile (Str k) d s) in
  let w := IoWriteFile l (index o) k (Some (norm_data d)) in
  (pending (fflags o) = false ->
     io s1 = io s ++ [IoClearTimeout (timeout (fflags o)); w])
  /\ (pending (fflags o) = true ->
        io s1 = io s
        /\ forall err,
             io (host (FileWritten l err) s1)
             = io s ++ [IoClearTimeout (timeout (fflags o)); w]).
Proof.
  intros Hk Hl Hn s1 w. subst s1 w.
  rewrite (writeFile_existing k d s l o Hk Hl). cbn [fst].
  apply lookup_file_Some in Hl as [Hf Hh].
  assert (l < length (heap s))%nat as Hlt by (by eapply lookup_lt_Some).
  destruct o as [i n dt sel [p w t]]. simpl in Hn. subst n.
  unfold set_data. cbn [fflags pending timeout index name data selected].
  split.
  - intros ->. unfold _writeFile. rewrite lookup_file_set_obj by done.
    cbn. by rewrite <- app_assoc.
  - intros ->.
    assert (_writeFile k
              (set_obj l (MkFile i k (Some (norm_data d)) sel
                                 (Flags true w t)) s)
            = set_obj l (MkFile i k (Some (norm_data d)) sel
                                (Flags true true t)) s) as ->.
    { unfold _writeFile. rewrite lookup_file_set_obj by done. cbn.
      unfold set_obj, set_heap. cbn. by rewrite list_insert_insert_eq. }
    split; [done|]. intros err.
    cbn [host]. unfold _writeFile_done. rewrite heap_set_obj by done.
    cbn [fflags set_fflags set_waiting set_pending waiting pending timeout
         index name data selected].
    rewrite set_obj_set_obj. unfold _writeFile.
    rewrite lookup_file_set_obj by done. cbn. by rewrite <- app_assoc.
Qed.

Lemma writeFile_reaches_host_witness :
  io (fst (writeFile (Str "a") (Str "new") st_ab))
  = io st_ab ++ [IoClearTimeout None; IoWriteFile 0 0 "a" (Some "new")].
Proof.
  by apply (writeFile_reaches_host "a" (Str "new") st_ab 0 fileA).
Defined.

(** ** Callbacks and what a caller sees *)

Lemma strip_eq s a :
  strip s = strip a <->
  files s = files a /\ properties s = properties a
  /\ maxIndex s = maxIndex a /\ copy_of <$> heap s = copy_of <$> heap a.
Proof.
  unfold strip. split.
  - by intros [= Hh Hm Hf Hp].
  - by intros (-> & -> & -> & ->).
Qed.

Lemma strip_length s a : strip s = strip a -> length (heap s) = length (heap a).
Proof.
  intros (_ & _ & _ & Hh)%strip_eq.
  by rewrite <- (length_fmap copy_of (heap s)), Hh, length_fmap.
Qed.

Lemma strip_heap_lookup s a l :
  strip s = strip a ->
  match heap s !! l, heap a !! l with
  | Some o, Some o' => copy_of o = copy_of o'
  | None, None => True
  | _, _ => False
  end.
Proof.
  intros (_ & _ & _ & Hh)%strip_eq.
  assert (H := f_equal (fun h => h !! l) Hh). simpl in H.
  rewrite !list_lookup_fmap in H.
  destruct (heap s !! l), (heap a !! l); simpl in H;
    first [done | congruence].
Qed.

Lemma strip_lookup_file s a k :
  strip s = strip a ->
  match lookup_file k s, lookup_file k a with
  | Some (l, o), Some (l', o') => l = l' /\ copy_of o = copy_of o'
  | None, None => True
  | _, _ => False
  end.
Proof.
  intros H. pose proof H as (Hf & _)%strip_eq.
  unfold lookup_file. rewrite Hf. destruct (files a !! k) as [l|]; [|done].
  pose proof (strip_heap_lookup s a l H).
  by destruct (heap s !! l), (heap a !! l).
Qed.

Lemma strip_writeProperties s : strip (_writeProperties s) = strip s.
Proof. unfold _writeProperties. by destruct (pending (pflags s)). Qed.

Lemma strip_writeFile_req k s : strip (_writeFile k s) = strip s.
Proof.
  apply strip_eq. frame_simpl. repeat split.
  apply list_eq. intros i. rewrite !list_lookup_fmap.
  by apply writeFile_req_heap.
Qed.

Lemma strip_set_obj l o o' s a :
  strip s = strip a -> copy_of o = copy_of o' ->
  strip (set_obj l o s) = strip (set_obj l o' a).
Proof.
  rewrite !strip_eq. simpl. intros (-> & -> & -> & Hh) Ho.
  repeat split. by rewrite !list_fmap_insert, Hh, Ho.
Qed.

Lemma strip_set_obj_id l o o' s :
  heap s !! l = Some o -> copy_of o' = copy_of o ->
  strip (set_obj l o' s) = strip s.
Proof.
  intros Hl Ho. apply strip_eq. simpl. repeat split.
  rewrite list_fmap_insert, Ho. apply list_insert_id.
  by rewrite list_lookup_fmap, Hl.
Qed.

Lemma strip_host e s : strip (host e s) = strip s.
Proof.
  destruct e as [l err|err|[l|]]; simpl.
  - unfold _writeFile_done. destruct (heap s !! l) as [o|] eqn:E; [|done].
    simpl. destruct (waiting (fflags o)).
    + rewrite strip_writeFile_req. by eapply strip_set_obj_id.
    + destruct err; [|by eapply strip_set_obj_id].
      apply strip_eq. simpl. repeat split.
      rewrite list_fmap_insert. apply list_insert_id.
      by rewrite list_lookup_fmap, E.
  - unfold _writeProperties_done. simpl.
    destruct (waiting (pflags s)); [by rewrite strip_writeProperties|].
    by destruct err.
  - destruct (heap s !! l); [apply strip_writeFile_req|done].
  - apply strip_writeProperties.
Qed.

Ltac strip_fields H :=
  let Hf := fresh "Hf" in let Hp := fresh "Hp" in
  let Hm := fresh "Hm" in let Hh := fresh "Hh" in
  pose proof H as (Hf & Hp & Hm & Hh)%strip_eq.

Ltac strip_solve :=
  rewrite ?strip_writeFile_req, ?strip_writeProperties;
  apply strip_eq; simpl;
  repeat match goal with
         | H : files _ = files _ |- _ => rewrite H; clear H
         | H : properties _ = properties _ |- _ => rewrite H; clear H
         | H : maxIndex _ = maxIndex _ |- _ => rewrite H; clear H
         | H : copy_of <$> heap _ = copy_of <$> heap _ |- _ =>
             rewrite ?fmap_app, ?H; clear H
         end;
  done.

Lemma copy_of_fields o o' :
  copy_of o = copy_of o' ->
  index o = index o' /\ name o = name o' /\ data o = data o'
  /\ selected o = selected o'.
Proof. by intros [= ? ? ? ?]. Qed.

Lemma getFileList_map_public b order s a :
  strip s = strip a ->
  fst (getFileList_map b order s) = fst (getFileList_map b order a)
  /\ strip (snd (getFileList_map b order s))
     = strip (snd (getFileList_map b order a)).
Proof.
  revert s a. induction order as [|v order IH]; intros s a H; [done|].
  strip_fields H. simpl. rewrite Hf.
  assert (exists e s1 a1,
            (if b then (files a !! js_toString v, s)
             else copyFileObj (files a !! js_toString v) s) = (e, s1)
            /\ (if b then (files a !! js_toString v, a)
                else copyFileObj (files a !! js_toString v) a) = (e, a1)
            /\ strip s1 = strip a1) as (e & s1 & a1 & -> & -> & H1).
  { destruct b; [by do 3 eexists|]. unfold copyFileObj.
    destruct (files a !! js_toString v) as [l|]; [|by do 3 eexists].
    pose proof (strip_heap_lookup s a l H) as Hl.
    destruct (heap s !! l) as [o|], (heap a !! l) as [o'|]; try done;
      [|by do 3 eexists].
    simpl. rewrite (strip_length s a H).
    destruct (copy_of_fields _ _ Hl) as (-> & -> & -> & ->).
    do 3 eexists. split; [done|]. split; [done|]. strip_solve. }
  destruct (IH s1 a1 H1) as [IH1 IH2].
  destruct (getFileList_map b order s1), (getFileList_map b order a1).
  simpl in *. by subst.
Qed.

Lemma writeFile_public file d s a :
  strip s = strip a ->
  snd (writeFile file d s) = snd (writeFile file d a)
  /\ strip (fst (writeFile file d s)) = strip (fst (writeFile file d a)).
Proof.
  intros H. strip_fields H. unfold writeFile.
  destruct (truthy file); simpl; [|done].
  pose proof (strip_lookup_file s a (key file) H) as Hl.
  destruct (lookup_file (key file) s) as [[l o]|],
    (lookup_file (key file) a) as [[l' o']|]; try done.
  - destruct Hl as [<- Ho]. simpl. split; [done|].
    rewrite !strip_writeFile_req. apply strip_set_obj; [done|].
    destruct (copy_of_fields _ _ Ho) as (Hi & Hn & _ & Hs).
    unfold copy_of. simpl. by rewrite Hi, Hn, Hs.
  - rewrite Hp, (strip_length s a H), Hm.
    destruct (properties a !! filesOrder_key) as [[]|]; simpl;
      try (split; [done|]; strip_solve).
    split; [done|]. rewrite !strip_writeFile_req.
    apply strip_set_obj; [|done]. strip_solve.
Qed.

Lemma exec_public c s a :
  strip s = strip a ->
  snd (exec c s) = snd (exec c a)
  /\ strip (fst (exec c s)) = strip (fst (exec c a)).
Proof.
  intros H. strip_fields H. destruct c; simpl.
  - unfold count. simpl. by rewrite Hf.
  - unfold existsFile. rewrite Hf. by destruct (files a !! key file).
  - unfold getFileList. rewrite Hp.
    destruct (properties a !! filesOrder_key) as [[| | | | |order|]|];
      try done.
    destruct (getFileList_map_public origObj order s a H) as [H1 H2].
    destruct (getFileList_map origObj order s),
      (getFileList_map origObj order a). simpl in *. by subst.
  - by apply writeFile_public.
  - unfold updateFile, existsFile. rewrite Hf.
    destruct (files a !! key file); simpl; [|done].
    by apply writeFile_public.
  - unfold readFile. destruct file as [| |f]; try done.
    destruct (truthy_str f); simpl; [|done].
    pose proof (strip_lookup_file s a f H) as Hl.
    destruct (lookup_file f s) as [[l o]|],
      (lookup_file f a) as [[l' o']|]; try done.
    destruct Hl as [_ (_ & _ & -> & _)%copy_of_fields].
    by destruct (data o').
  - unfold removeFile. destruct (truthy_str file); simpl; [|done].
    pose proof (strip_lookup_file s a file H) as Hl.
    destruct (lookup_file file s) as [[l o]|],
      (lookup_file file a) as [[l' o']|]; try done.
    destruct Hl as [_ (-> & -> & _ & _)%copy_of_fields]. rewrite Hp.
    destruct (properties a !! filesOrder_key) as [[]|]; simpl; try done.
    split; [done|]. strip_solve.
  - unfold renameFile. destruct (truthy_str newFile); simpl; [|done].
    pose proof (strip_lookup_file s a file H) as Hl.
    destruct (lookup_file file s) as [[l o]|],
      (lookup_file file a) as [[l' o']|]; try done.
    destruct Hl as [<- Ho]. rewrite Hf, Hp.
    destruct (copy_of_fields _ _ Ho) as (Hi & Hn & Hd & Hs).
    destruct (files a !! newFile); [done|].
    assert (copy_of (set_name newFile o) = copy_of (set_name newFile o'))
      as Hc by (unfold copy_of; simpl; by rewrite Hi, Hd, Hs).
    rewrite ?Hn, ?Hi.
    destruct (properties a !! filesOrder_key) as [[]|]; simpl; try done;
      (split; [done|]); rewrite !strip_writeProperties;
      apply strip_eq; simpl; by rewrite !list_fmap_insert, Hc, Hh.
  - unfold moveTo. rewrite Hp.
    destruct (properties a !! filesOrder_key) as [[| | | |str|order|]|];
      try done.
    + destruct (str_indexOf str fromName); [|done].
      by destruct (str_indexOf str toName).
    + destruct (indexOf order fromName); [|done].
      destruct (indexOf order toName); [|done].
      simpl. split; [done|]. strip_solve.
  - unfold setProperty. simpl. split; [done|]. strip_solve.
  - unfold hasProperty. by rewrite Hp.
  - unfold setProperties. destruct obj; simpl; [|done].
    split; [done|]. strip_solve.
  - unfold getProperty. simpl. by rewrite Hp.
  - unfold removeProperty, hasProperty. rewrite Hp.
    destruct (bool_decide _ && _); simpl; [|done].
    split; [done|]. strip_solve.
Qed.

(** X17. Callbacks are invisible to callers.  Take two states that hold
    the same table, properties and counter and the same records up to
    their [_pending], [_waiting] and [_timeout] fields.  However
    completion callbacks and retry timers are interleaved with a sequence
    of calls run from the first, every call completes as it does from the
    second when no callback runs at all, and the final states agree in
    the same way. *)
Theorem callbacks_invisible (evs : list event) (s a : Storage) :
  strip s = strip a ->
  snd (run_events evs s) = snd (run_events (Call <$> omap is_call evs) a)
  /\ strip (fst (run_events evs s))
     = strip (fst (run_events (Call <$> omap is_call evs) a)).
Proof.
  revert s a. induction evs as [|[c|e] evs IH]; intros s a H; [done|..].
  - simpl. destruct (exec_public c s a H) as [Hr Hs].
    destruct (exec c s) as [s1 r], (exec c a) as [a1 r']. simpl in *.
    subst r'. destruct (IH s1 a1 Hs) as [IH1 IH2].
    destruct (run_events evs s1), (run_events _ a1). simpl in *.
    by rewrite IH1.
  - simpl. apply IH. by rewrite strip_host.
Qed.

Lemma callbacks_invisible_witness :
  snd (run_events [Call (WriteFile (Str "a") (Str "x"));
                   Host (FileWritten 0 true);
                   Call (WriteFile (Str "a") (Str "y"));
                   Host (TimerFired (Some 0%nat));
                   Call (ReadFile (Str "a"))] st_ab)
  = [Return (RRef 0); Return (RRef 0); Return (RStr "y")].
Proof.
  by rewrite (proj1 (callbacks_invisible _ st_ab st_ab eq_refl)).
Defined.

(** ** One properties write at a time *)

Lemma json_writes_app ops1 ops2 :
  json_writes (ops1 ++ ops2) = json_writes ops1 ++ json_writes ops2.
Proof. apply omap_app. Qed.

Lemma writeFile_req_pflags k s : pflags (_writeFile k s) = pflags s.
Proof.
  unfold _writeFile. destruct (lookup_file k s) as [[l o]|]; [|done].
  by destruct (pending (fflags o)).
Qed.

Lemma writeFile_req_json k s :
  json_writes (io (_writeFile k s)) = json_writes (io s).
Proof.
  unfold _writeFile. destruct (lookup_file k s) as [[l o]|]; [|done].
  destruct (pending (fflags o)); [done|]. simpl.
  by rewrite <- app_assoc, json_writes_app, app_nil_r.
Qed.

Lemma getFileList_map_quiet b order s :
  pflags (snd (getFileList_map b order s)) = pflags s
  /\ io (snd (getFileList_map b order s)) = io s.
Proof.
  revert s. induction order as [|v order IH]; intros s; [done|]. simpl.
  assert (pflags (if b then (files s !! js_toString v, s)
                  else copyFileObj (files s !! js_toString v) s).2 = pflags s
          /\ io (if b then (files s !! js_toString v, s)
                 else copyFileObj (files s !! js_toString v) s).2 = io s)
    as [H1 H2].
  { destruct b; [done|]. unfold copyFileObj.
    destruct (files s !! js_toString v) as [l|]; [|done].
    by destruct (heap s !! l). }
  destruct (if b then _ else _) as [e s1]. simpl in *.
  destruct (IH s1) as [IH1 IH2].
  destruct (getFileList_map b order s1) as [es s2]. simpl in *.
  split; congruence.
Qed.

Lemma held_quiet s y :
  pending (pflags s) = true -> pflags y = pflags s ->
  json_writes (io y) = json_writes (io s) -> properties y = properties s ->
  held s y.
Proof. intros Hp Hfl Hj Hpr. unfold held. rewrite Hfl. by repeat split; [..|right]. Qed.

Lemma held_writeProperties s y :
  pending (pflags s) = true -> pflags y = pflags s ->
  json_writes (io y) = json_writes (io s) ->
  held s (_writeProperties y).
Proof.
  intros Hp Hfl Hj. unfold held, _writeProperties. rewrite Hfl, Hp. simpl.
  by repeat split; [..|left].
Qed.

Lemma held_writeFile_req k s y : held s y -> held s (_writeFile k y).
Proof.
  unfold held.
  by rewrite writeFile_req_pflags, writeFile_req_json,
    writeFile_req_properties.
Qed.

Lemma held_set_obj l o s y : held s y -> held s (set_obj l o y).
Proof. done. Qed.

Ltac held_solve :=
  unfold held;
  rewrite ?writeFile_req_pflags, ?writeFile_req_json,
    ?writeFile_req_properties;
  simpl; unfold _writeProperties; simpl;
  repeat match goal with
         | H : pending (pflags _) = true |- _ => rewrite H; simpl
         end;
  rewrite ?json_writes_app, ?app_nil_r;
  repeat split; first [done | by left | by right].

Lemma writeFile_held file d s :
  pending (pflags s) = true -> held s (fst (writeFile file d s)).
Proof.
  intros Hp. unfold writeFile. destruct (truthy file); simpl; [|held_solve].
  destruct (lookup_file (key file) s) as [[l o]|]; simpl; [held_solve|].
  destruct (properties s !! filesOrder_key) as [[]|]; simpl; held_solve.
Qed.

Lemma exec_held c s :
  pending (pflags s) = true -> held s (fst (exec c s)).
Proof.
  intros Hp. destruct c; simpl.
  - held_solve.
  - unfold existsFile. destruct (files s !! key file); held_solve.
  - unfold getFileList.
    destruct (properties s !! filesOrder_key) as [[| | | | |order|]|];
      try held_solve.
    destruct (getFileList_map_quiet origObj order s) as [H1 H2].
    destruct (getFileList_map_frame origObj order s) as (_ & H3 & _).
    destruct (getFileList_map origObj order s) as [es s1]. simpl in *.
    apply held_quiet; congruence.
  - by apply writeFile_held.
  - unfold updateFile, existsFile.
    destruct (files s !! key file); simpl; [by apply writeFile_held|].
    held_solve.
  - unfold readFile. destruct file as [| |f]; try held_solve.
    destruct (truthy_str f); simpl; [|held_solve].
    destruct (lookup_file f s) as [[? o]|]; [|held_solve].
    destruct (data o); held_solve.
  - unfold removeFile. destruct (truthy_str file); simpl; [|held_solve].
    destruct (lookup_file file s) as [[l o]|]; [|held_solve].
    destruct (properties s !! filesOrder_key) as [[]|]; held_solve.
  - unfold renameFile. destruct (truthy_str newFile); simpl; [|held_solve].
    destruct (lookup_file file s) as [[l o]|]; [|held_solve].
    destruct (files s !! newFile); [held_solve|].
    destruct (properties s !! filesOrder_key) as [[]|]; held_solve.
  - unfold moveTo.
    destruct (properties s !! filesOrder_key) as [[| | | |str|order|]|];
      try held_solve.
    + destruct (str_indexOf str fromName); [|held_solve].
      destruct (str_indexOf str toName); held_solve.
    + destruct (indexOf order fromName); [|held_solve].
      destruct (indexOf order toName); held_solve.
  - unfold setProperty. held_solve.
  - held_solve.
  - unfold setProperties. destruct obj; held_solve.
  - unfold getProperty. held_solve.
  - unfold removeProperty. destruct (hasProperty nm s && _); held_solve.
Qed.

Lemma host_held e s :
  pending (pflags s) = true -> is_properties_written (Host e) = false ->
  held s (host e s).
Proof.
  intros Hp He. destruct e as [l err|err|[l|]]; simpl; try done.
  - unfold _writeFile_done. destruct (heap s !! l) as [o|]; [|held_solve].
    simpl. destruct (waiting (fflags o)); [held_solve|].
    destruct err; held_solve.
  - destruct (heap s !! l); held_solve.
  - held_solve.
Qed.

Lemma held_trans s1 s2 s3 : held s1 s2 -> held s2 s3 -> held s1 s3.
Proof.
  intros (Hp1 & Hj1 & Hw1 & Hc1) (Hp2 & Hj2 & Hw2 & Hc2).
  unfold held. split; [done|]. split; [congruence|]. split; [by auto|].
  destruct Hc2 as [?|Hc2]; [by left|].
  destruct Hc1 as [?|Hc1]; [left; by auto|right; congruence].
Qed.

(** X18. One properties write at a time.  While a write of the
    properties document is in flight, no sequence of calls, file
    callbacks and timers hands another document to [fse.outputJson].  If
    the properties changed in the meantime a request waits, and when the
    write in flight completes, with or without an error, exactly one
    further write is issued if a request waits, carrying the properties
    of that moment. *)
Theorem properties_write_coalesced (evs : list event) (s : Storage) :
  pending (pflags s) = true ->
  Forall (fun ev => is_properties_written ev = false) evs ->
  let s' := fst (run_events evs s) in
  pending (pflags s') = true
  /\ json_writes (io s') = json_writes (io s)
  /\ (waiting (pflags s') = true \/ properties s' = properties s)
  /\ forall err,
       json_writes (io (host (PropertiesWritten err) s'))
       = json_writes (io s)
         ++ (if waiting (pflags s') then [properties s'] else []).
Proof.
  intros Hp Hevs s'.
  assert (held s s') as (Hp' & Hj & _ & Hc).
  { subst s'. revert s Hp.
    induction Hevs as [|[c|e] evs Hev _ IH]; intros s Hp.
    - by apply held_quiet.
    - simpl. pose proof (exec_held c s Hp) as Hh.
      destruct (exec c s) as [s1 r]. simpl in Hh.
      specialize (IH s1 (proj1 Hh)).
      destruct (run_events evs s1) as [s2 rs]. simpl in *.
      by eapply held_trans.
    - simpl. pose proof (host_held e s Hp Hev) as Hh.
      eapply held_trans; [exact Hh|]. apply IH, Hh. }
  split; [done|]. split; [done|]. split; [done|]. intros err.
  simpl. unfold _writeProperties_done. simpl.
  destruct (waiting (pflags s')).
  - unfold _writeProperties. simpl.
    by rewrite <- app_assoc, json_writes_app, Hj.
  - destruct err; simpl; [|by rewrite app_nil_r].
    by rewrite <- app_assoc, json_writes_app, Hj.
Qed.

Lemma properties_write_coalesced_witness :
  json_writes
    (io (fst (run_events
                [Call (SetProperty "y" (JNum 2)); Host (FileWritten 0 false);
                 Call (RemoveFile "a"); Host (TimerFired None)]
                (fst (setProperty "x" (JNum 1) st_abc)))))
  = json_writes (io (fst (setProperty "x" (JNum 1) st_abc)))
  /\ length
       (json_writes
          (io (host (PropertiesWritten false)
                 (fst (run_events
                         [Call (SetProperty "y" (JNum 2));
                          Host (FileWritten 0 false);
                          Call (RemoveFile "a"); Host (TimerFired None)]
                         (fst (setProperty "x" (JNum 1) st_abc)))))))
     = 2%nat.
Proof.
  destruct (properties_write_coalesced
              [Call (SetProperty "y" (JNum 2)); Host (FileWritten 0 false);
               Call (RemoveFile "a"); Host (TimerFired None)]
              (fst (setProperty "x" (JNum 1) st_abc)))
    as (_ & Hj & _ & Hw).
  - reflexivity.
  - by repeat constructor.
  - split; [exact Hj|]. by rewrite Hw.
Defined.

(** ** What the constructor leaves behind *)

Lemma scan_entry_quiet dec s entry :
  pflags (scan_entry dec s entry) = pflags s
  /\ json_writes (io (scan_entry dec s entry)) = json_writes (io s).
Proof.
  unfold scan_entry. destruct (match_entry entry.1) as [[d e]|]; [|done].
  destruct (dec e) as [nm|err]; simpl.
  - unfold readFileSafe.
    destruct (maxIndex s <? parse_dec d)%Z, entry.2; simpl;
      by rewrite ?json_writes_app, ?app_nil_r.
  - by rewrite json_writes_app, app_nil_r.
Qed.

Lemma scan_quiet dec dir s :
  pflags (fold_left (scan_entry dec) dir s) = pflags s
  /\ json_writes (io (fold_left (scan_entry dec) dir s))
     = json_writes (io s).
Proof.
  revert s. induction dir as [|e dir IH]; intros s; [done|]. simpl.
  destruct (IH (scan_entry dec s e)) as [-> ->]. apply scan_entry_quiet.
Qed.

Lemma readJsonSafe_log JSON_parse read :
  json_writes (readJsonSafe JSON_parse read).2 = [].
Proof.
  unfold readJsonSafe. destruct read as [f|]; [|done].
  destruct (truthy_str f); [|done]. by destruct (JSON_parse f).
Qed.

(** X19. Whatever the files directory holds and however reading its
    entries fails, opening a store on a properties document that is a
    JSON object succeeds.  The store satisfies the invariants, keeps
    every property of the document other than [filesOrder], and has
    handed exactly one document to the host, the properties it now
    holds, whose write is in flight. *)
Theorem bootstrap_establishes_invariants
    (dec : string -> completion string)
    (JSON_parse : string -> completion jsval)
    (dir : list (string * completion string)) (read : completion string)
    (doc : gmap string jsval) :
  (readJsonSafe JSON_parse read).1 = Return (JObj doc) ->
  exists s,
    Storage_new dec JSON_parse dir read = Some s
    /\ files_wf s /\ order_perm s /\ index_bound s
    /\ (forall k, k <> filesOrder_key -> properties s !! k = doc !! k)
    /\ pending (pflags s) = true
    /\ json_writes (io s) = [properties s].
Proof.
  intros Hdoc.
  destruct (Storage_new dec JSON_parse dir read) as [s|] eqn:Hnew.
  - exists s. split; [done|].
    destruct (Storage_new_invariants dec JSON_parse dir read s Hnew)
      as (Hwf & Hop & Hib).
    repeat (split; [done|]).
    unfold Storage_new in Hnew.
    destruct (scan_quiet dec dir (MkStorage [] (-1) ∅ ∅ no_flags 0 []))
      as [Hfl Hj].
    pose proof (readJsonSafe_log JSON_parse read) as Hlog.
    destruct (readJsonSafe JSON_parse read) as [d log]. simpl in Hdoc, Hlog.
    subst d. injection Hnew as <-.
    unfold restore_order, setProperty, _writeProperties. simpl.
    rewrite Hfl. simpl. split; [|split; [done|]].
    + intros k Hk. by rewrite lookup_insert_ne.
    + by rewrite <- !app_assoc, !json_writes_app, Hj, Hlog.
  - exfalso. unfold Storage_new in Hnew.
    destruct (readJsonSafe JSON_parse read) as [d log]. simpl in Hdoc.
    by subst d.
Qed.

Lemma bootstrap_establishes_invariants_witness :
  exists s,
    Storage_new (fun n => if decide (n = "%") then Throw "URIError"
                          else Return n)
                (fun _ => Return (JObj {[ "theme" := JStr "dark" ]}))
                [("3.b", Return "x"); ("junk", Return "");
                 ("7.%", Return "y"); ("1.a", Throw "EISDIR")]
                (Return "{}") = Some s
    /\ order_perm s /\ properties s !! "theme" = Some (JStr "dark").
Proof.
  destruct (bootstrap_establishes_invariants
              (fun n => if decide (n = "%") then Throw "URIError"
                        else Return n)
              (fun _ => Return (JObj {[ "theme" := JStr "dark" ]}))
              [("3.b", Return "x"); ("junk", Return "");
               ("7.%", Return "y"); ("1.a", Throw "EISDIR")]
              (Return "{}") {[ "theme" := JStr "dark" ]})
    as (s & Hs & _ & Hop & _ & Hk & _).
  - reflexivity.
  - exists s. split; [exact Hs|]. split; [exact Hop|]. by rewrite Hk.
Defined.

(** ** Calls that fail *)

(** X20. A call that changes files or their order and returns without a
    truthy value has done nothing: the store, including the requests
    handed to the host, is exactly as before. *)
Theorem failed_call_is_noop (c : call) (s : Storage) (r : retval) :
  is_file_mutation c = true ->
  snd (exec c s) = Return r -> truthy_ret r = false ->
  fst (exec c s) = s.
Proof.
  assert (forall file d r', snd (writeFile file d s) = Return r' ->
            truthy_ret r' = false -> fst (writeFile file d s) = s) as Hw.
  { intros file d r'. unfold writeFile.
    destruct (truthy file); simpl; [|done].
    destruct (lookup_file (key file) s) as [[l o]|]; simpl;
      [by intros [= <-]|].
    destruct (properties s !! filesOrder_key) as [[]|]; simpl; try done.
    by intros [= <-]. }
  destruct c; try done; intros _; simpl.
  - apply Hw.
  - unfold updateFile, existsFile.
    destruct (files s !! key file); simpl; [apply Hw|done].
  - unfold removeFile. destruct (truthy_str file); simpl; [|done].
    destruct (lookup_file file s) as [[l o]|]; [|done].
    destruct (properties s !! filesOrder_key) as [[]|]; simpl; try done.
    by intros [= <-].
  - unfold renameFile. destruct (truthy_str newFile); simpl; [|done].
    destruct (lookup_file file s) as [[l o]|]; [|done].
    destruct (files s !! newFile); [done|].
    destruct (properties s !! filesOrder_key) as [[]|]; simpl; try done;
      by intros [= <-].
  - unfold moveTo.
    destruct (properties s !! filesOrder_key) as [[| | | |str|order|]|];
      try done.
    + destruct (str_indexOf str fromName); [|done].
      by destruct (str_indexOf str toName).
    + destruct (indexOf order fromName); [|done].
      destruct (indexOf order toName); [|done].
      simpl. by intros [= <-].
Qed.

Lemma failed_call_is_noop_witness :
  fst (exec (RenameFile "a" "b") st_ab) = st_ab.
Proof.
  by apply (failed_call_is_noop (RenameFile "a" "b") st_ab RUndefined).
Defined.

(** ** Failed writes *)

(** X21. A failed write is retried.  When the write of a record fails
    and no request waits, the callback logs the error and arms one retry
    timer, which it notes on the record.  When the timer fires, the
    record's current data are handed to [fs.writeFile] again, after the
    timer has been cleared; if the name has left the table by then, the
    timer does nothing. *)
Theorem failed_write_retried (s : Storage) (l : nat) (o : FileObj) :
  lookup_file (name o) s = Some (l, o) ->
  pending (fflags o) = true -> waiting (fflags o) = false ->
  let s1 := host (FileWritten l true) s in
  let id := next_timer s in
  io s1 = io s ++ [IoSetTimeout id (Some l); IoLogError]
  /\ lookup_file (name o) s1
     = Some (l, set_fflags (Flags false false (Some id)) o)
  /\ next_timer s1 = S id
  /\ io (host (TimerFired (Some l)) s1)
     = io s1 ++ [IoClearTimeout (Some id);
                 IoWriteFile l (index o) (name o) (data o)]
  /\ forall s2, heap s2 !! l = heap s1 !! l ->
       files s2 !! name o = None ->
       host (TimerFired (Some l)) s2 = s2.
Proof.
  intros Hl Hp Hw s1 id.
  apply lookup_file_Some in Hl as [Hf Hh].
  assert (l < length (heap s))%nat as Hlt by (by eapply lookup_lt_Some).
  destruct o as [i n dt sel [p w t]]. simpl in Hp, Hw, Hf. subst p w.
  assert (s1 = emit IoLogError
                 (set_obj l (MkFile i n dt sel (Flags false false (Some id)))
                    (emit (IoSetTimeout id (Some l))
                       (set_next_timer (S id) s)))) as Hs1.
  { subst s1 id. simpl. unfold _writeFile_done. by rewrite Hh. }
  assert (heap s1 !! l
          = Some (MkFile i n dt sel (Flags false false (Some id)))) as Hh1.
  { rewrite Hs1. simpl. by apply list_lookup_insert_eq. }
  assert (lookup_file n s1
          = Some (l, MkFile i n dt sel (Flags false false (Some id))))
    as Hl1.
  { apply lookup_file_Some. split; [by rewrite Hs1|done]. }
  split; [by rewrite Hs1; simpl; rewrite <- app_assoc|].
  split; [done|]. split; [by rewrite Hs1|]. split.
  - simpl. rewrite Hh1. simpl. unfold _writeFile. rewrite Hl1. simpl.
    by rewrite <- app_assoc.
  - intros s2 Hh2 Hf2. simpl. rewrite Hh2, Hh1. simpl.
    simpl in Hf2. unfold _writeFile, lookup_file. by rewrite Hf2.
Qed.

Lemma failed_write_retried_witness :
  io (host (TimerFired (Some 0%nat))
        (host (FileWritten 0 true)
           (fst (writeFile (Str "a") (Str "new") st_ab))))
  = [IoClearTimeout None; IoWriteFile 0 0 "a" (Some "new");
     IoSetTimeout 0 (Some 0%nat); IoLogError;
     IoClearTimeout (Some 0%nat); IoWriteFile 0 0 "a" (Some "new")].
Proof.
  destruct (failed_write_retried
              (fst (writeFile (Str "a") (Str "new") st_ab)) 0
              (MkFile 0 "a" (Some "new") JUndef (Flags true false None)))
    as (H1 & _ & _ & H4 & _).
  - reflexivity.
  - reflexivity.
  - reflexivity.
  - rewrite H4, H1. reflexivity.
Defined.
